(** * LibSodium/c/libsodium.cpp: the ChaCha20-Poly1305 boundary adapter

    The C++ file exports a smoke-test stub for integers ([my_add]), two
    entry points that guard a call into libsodium with [sodium_init]
    ([chacha20_poly1305_encrypt], [chacha20_poly1305_decrypt]) and three
    constant accessors.  (Its second stub, [my_lean_fun], only builds a
    value of the host runtime and is not modelled.)

    The embedding is shallow.  C integers are [Z] with their wrap-around
    written out, byte buffers are [list Z] living in a memory indexed by
    pointers, the entry points are functions in a state-and-failure monad
    over a world made of the library's process-wide state, the memory and
    the log of library calls.  libsodium itself is not part of the
    repository: the adapter is defined over an arbitrary [Provider], and
    [Ietf] gives the provider the adapter is linked against, the IETF
    ChaCha20-Poly1305 construction. *)

From Stdlib Require Import ZArith List Lia Bool String Ascii.
From stdpp Require Import gmap list.

Local Open Scope Z_scope.

(** ** Integers and bytes *)

(** A byte is a [Z] in [0, 256); a buffer is a list of them. *)
Abbreviation bytes := (list Z).

Definition is_byte (b : Z) : Prop := 0 <= b < 256.
Definition wf_bytes (l : bytes) : Prop := Forall is_byte l.

Definition UINT32_MOD : Z := 2 ^ 32.

(** [extern "C" uint32_t my_add(uint32_t a, uint32_t b) { return a + b; }]
    Unsigned 32-bit addition: the sum is reduced modulo [2^32]. *)
Definition my_add (a b : Z) : Z := (a + b) mod UINT32_MOD.

(** ** Constants of <sodium.h> *)

(** Modelled from the spec: the macro
    [crypto_aead_chacha20poly1305_ietf_KEYBYTES] of libsodium's header, which
    is not under src/; the spec gives the key length as 32 bytes. *)
Definition crypto_aead_chacha20poly1305_ietf_KEYBYTES : Z := 32.

(** Modelled from the spec: the macro
    [crypto_aead_chacha20poly1305_ietf_NPUBBYTES] of libsodium's header; the
    spec gives the nonce length as 12 bytes. *)
Definition crypto_aead_chacha20poly1305_ietf_NPUBBYTES : Z := 12.

(** Modelled from the spec: the macro
    [crypto_aead_chacha20poly1305_ietf_ABYTES] of libsodium's header; the spec
    gives the tag length as 16 bytes. *)
Definition crypto_aead_chacha20poly1305_ietf_ABYTES : Z := 16.

(** Modelled from the spec: the macro
    [crypto_aead_chacha20poly1305_ietf_MESSAGEBYTES_MAX] of libsodium's
    header, the longest message the construction accepts: [2^32 - 1]
    keystream blocks of 64 bytes. *)
Definition crypto_aead_chacha20poly1305_ietf_MESSAGEBYTES_MAX : Z :=
  64 * (2 ^ 32 - 1).

(** ** Memory *)

(** A pointer names a caller-allocated object.  [unsigned char *] objects
    are byte buffers, [unsigned long long *] objects are cells. *)
Definition ptr := nat.

Record Mem := mkMem {
  bufs : gmap ptr bytes;
  cells : gmap ptr Z
}.

(** Reading [n] bytes at [p].  Nothing is dereferenced when [n = 0]; otherwise
    the object must exist and hold at least [n] bytes: reading past its end
    is undefined behaviour, rendered by [None]. *)
Definition load_bytes (m : Mem) (p : ptr) (n : Z) : option bytes :=
  if n =? 0 then Some []
  else match bufs m !! p with
       | Some b =>
           if (0 <? n) && (n <=? Z.of_nat (length b))
           then Some (take (Z.to_nat n) b) else None
       | None => None
       end.

(** Writing [data] at the start of the object [p]: the bytes behind the
    written prefix keep their values, writing past the end is undefined. *)
Definition store_bytes (m : Mem) (p : ptr) (data : bytes) : option Mem :=
  match data with
  | [] => Some m
  | _ =>
      match bufs m !! p with
      | Some b =>
          if (length data <=? length b)%nat
          then Some (mkMem (<[p := data ++ drop (length data) b]> (bufs m))
                           (cells m))
          else None
      | None => None
      end
  end.

Definition store_u64 (m : Mem) (p : ptr) (v : Z) : option Mem :=
  match cells m !! p with
  | Some _ => Some (mkMem (bufs m) (<[p := v]> (cells m)))
  | None => None
  end.

(** The number of bytes the object at [p] holds. *)
Definition capacity (m : Mem) (p : ptr) : Z :=
  match bufs m !! p with
  | Some b => Z.of_nat (length b)
  | None => 0
  end.

(** ** The world and its monad *)

(** The library routines the adapter can call. *)
Inductive Call : Set :=
  | call_sodium_init
  | call_ietf_encrypt
  | call_ietf_decrypt.

(** [L] is the process-wide state of the library (its initialisation flag
    and whatever its initialiser depends on). *)
Record World (L : Type) := mkWorld {
  lib : L;
  mem : Mem;
  calls : list Call
}.
Arguments mkWorld {L} _ _ _.
Arguments lib {L} _.
Arguments mem {L} _.
Arguments calls {L} _.

(** A computation runs in a world and either ends with a value and a new
    world or is undefined ([None]: an out-of-bounds access or an abort). *)
Definition M (L A : Type) : Type := World L -> option (A * World L).

Definition ret {L A : Type} (a : A) : M L A := fun w => Some (a, w).

Definition bind {L A B : Type} (m : M L A) (k : A -> M L B) : M L B :=
  fun w => match m w with
           | Some (a, w') => k a w'
           | None => None
           end.

Notation "x <- m ;; k" := (bind m (fun x => k))
  (at level 100, m at next level, right associativity).

(** ** The provider interface *)

(** What the adapter needs from libsodium.  [init_fn] is [sodium_init] as a
    transition of the library state, returning the C [int].  [encrypt_fn m ad
    npub k] gives the returned [int], the bytes written at [c] and the value
    written to [*clen_p], or [None] when the routine aborts the process;
    [decrypt_fn c ad npub k] gives the returned [int], the bytes written at
    [m] and the value written to [*mlen_p]. *)
Record Provider (L : Type) := mkProvider {
  init_fn : L -> Z * L;
  encrypt_fn : bytes -> bytes -> bytes -> bytes -> option (Z * bytes * Z);
  decrypt_fn : bytes -> bytes -> bytes -> bytes -> Z * bytes * Z
}.
Arguments mkProvider {L} _ _ _.
Arguments init_fn {L} _ _.
Arguments encrypt_fn {L} _ _ _ _ _.
Arguments decrypt_fn {L} _ _ _ _ _.

Section Adapter.

Context {L : Type} (P : Provider L).

(** Modelled from the spec: libsodium's [int sodium_init(void)], the
    process-wide initialiser, as the transition [init_fn] of the library
    state; the call is logged. *)
Definition sodium_init : M L Z := fun w =>
  let '(r, l') := init_fn P (lib w) in
  Some (r, mkWorld l' (mem w) (calls w ++ [call_sodium_init])).

(** Modelled from the spec: the call
    [crypto_aead_chacha20poly1305_ietf_encrypt(c, clen_p, m, mlen, ad,
    adlen, nsec, npub, k)] into libsodium.  The routine reads [mlen] message
    bytes, [adlen] bytes of associated data, a 12-byte nonce and a 32-byte
    key, then writes the ciphertext and its length; [nsec] is ignored. *)
Definition crypto_aead_chacha20poly1305_ietf_encrypt
    (c clen_p m : ptr) (mlen : Z) (ad : ptr) (adlen : Z)
    (nsec : option ptr) (npub k : ptr) : M L Z := fun w =>
  match load_bytes (mem w) m mlen,
        load_bytes (mem w) ad adlen,
        load_bytes (mem w) npub crypto_aead_chacha20poly1305_ietf_NPUBBYTES,
        load_bytes (mem w) k crypto_aead_chacha20poly1305_ietf_KEYBYTES with
  | Some mb, Some adb, Some nb, Some kb =>
      match encrypt_fn P mb adb nb kb with
      | Some (r, cb, clen) =>
          match store_bytes (mem w) c cb with
          | Some m1 =>
              match store_u64 m1 clen_p clen with
              | Some m2 =>
                  Some (r, mkWorld (lib w) m2 (calls w ++ [call_ietf_encrypt]))
              | None => None
              end
          | None => None
          end
      | None => None
      end
  | _, _, _, _ => None
  end.

(** Modelled from the spec: the call
    [crypto_aead_chacha20poly1305_ietf_decrypt(m, mlen_p, nsec, c, clen,
    ad, adlen, npub, k)] into libsodium, which reads its inputs the same way
    and writes the message buffer and the message length. *)
Definition crypto_aead_chacha20poly1305_ietf_decrypt
    (m mlen_p : ptr) (nsec : option ptr) (c : ptr) (clen : Z)
    (ad : ptr) (adlen : Z) (npub k : ptr) : M L Z := fun w =>
  match load_bytes (mem w) c clen,
        load_bytes (mem w) ad adlen,
        load_bytes (mem w) npub crypto_aead_chacha20poly1305_ietf_NPUBBYTES,
        load_bytes (mem w) k crypto_aead_chacha20poly1305_ietf_KEYBYTES with
  | Some cb, Some adb, Some nb, Some kb =>
      let '(r, mb, mlen) := decrypt_fn P cb adb nb kb in
      match store_bytes (mem w) m mb with
      | Some m1 =>
          match store_u64 m1 mlen_p mlen with
          | Some m2 =>
              Some (r, mkWorld (lib w) m2 (calls w ++ [call_ietf_decrypt]))
          | None => None
          end
      | None => None
      end
  | _, _, _, _ => None
  end.

(** ** The entry points of libsodium.cpp *)

(** ChaCha20-Poly1305 encryption.  Returns 0 on success, -1 on failure. *)
Definition chacha20_poly1305_encrypt
    (ciphertext ciphertext_len message : ptr) (message_len : Z)
    (ad : ptr) (ad_len : Z) (nonce key : ptr) : M L Z :=
  r <- sodium_init ;;
  if r <? 0 then ret (-1)
  else crypto_aead_chacha20poly1305_ietf_encrypt
         ciphertext ciphertext_len
         message message_len
         ad ad_len
         None
         nonce key.

(** ChaCha20-Poly1305 decryption.  Returns 0 on success, -1 on failure. *)
Definition chacha20_poly1305_decrypt
    (message message_len ciphertext : ptr) (ciphertext_len : Z)
    (ad : ptr) (ad_len : Z) (nonce key : ptr) : M L Z :=
  r <- sodium_init ;;
  if r <? 0 then ret (-1)
  else crypto_aead_chacha20poly1305_ietf_decrypt
         message message_len
         None
         ciphertext ciphertext_len
         ad ad_len
         nonce key.

(** Get key length *)
Definition chacha20_poly1305_keybytes : M L Z :=
  ret crypto_aead_chacha20poly1305_ietf_KEYBYTES.

(** Get nonce length *)
Definition chacha20_poly1305_noncebytes : M L Z :=
  ret crypto_aead_chacha20poly1305_ietf_NPUBBYTES.

(** Get authentication tag length *)
Definition chacha20_poly1305_abytes : M L Z :=
  ret crypto_aead_chacha20poly1305_ietf_ABYTES.

End Adapter.

(** ** The provider: IETF ChaCha20-Poly1305 *)

(** Modelled from the spec: the routines of libsodium the adapter calls.
    libsodium is an external library and none of its code is under src/;
    this module gives them as the construction the spec names, IETF
    ChaCha20-Poly1305 (RFC 8439): the ChaCha20 block function, the Poly1305
    one-time authenticator, and their composition into an AEAD whose
    ciphertext is the encrypted message followed by a 16-byte tag. *)
Module Ietf.

(** *** ChaCha20 *)

Definition add32 (a b : Z) : Z := (a + b) mod 2 ^ 32.

Definition rotl32 (x n : Z) : Z :=
  Z.lor (Z.shiftl x n mod 2 ^ 32) (Z.shiftr x (32 - n)).

(** Little-endian decoding and encoding of byte strings. *)
Definition le_decode (l : bytes) : Z :=
  fold_right (fun b acc => b + 256 * acc) 0 l.

Definition le_encode (n : nat) (x : Z) : bytes :=
  map (fun i => (x / 256 ^ Z.of_nat i) mod 256) (seq 0 n).

Definition le_words (n : nat) (l : bytes) : list Z :=
  map (fun i => le_decode (take 4 (drop (4 * i) l))) (seq 0 n).

Definition quarter_round (st : list Z) (a b c d : nat) : list Z :=
  let xa := nth a st 0 in let xb := nth b st 0 in
  let xc := nth c st 0 in let xd := nth d st 0 in
  let xa := add32 xa xb in let xd := rotl32 (Z.lxor xd xa) 16 in
  let xc := add32 xc xd in let xb := rotl32 (Z.lxor xb xc) 12 in
  let xa := add32 xa xb in let xd := rotl32 (Z.lxor xd xa) 8 in
  let xc := add32 xc xd in let xb := rotl32 (Z.lxor xb xc) 7 in
  <[d:=xd]> (<[c:=xc]> (<[b:=xb]> (<[a:=xa]> st))).

(** A column round followed by a diagonal round. *)
Definition double_round (st : list Z) : list Z :=
  let st := quarter_round st 0 4 8 12 in
  let st := quarter_round st 1 5 9 13 in
  let st := quarter_round st 2 6 10 14 in
  let st := quarter_round st 3 7 11 15 in
  let st := quarter_round st 0 5 10 15 in
  let st := quarter_round st 1 6 11 12 in
  let st := quarter_round st 2 7 8 13 in
  quarter_round st 3 4 9 14.

(** The 16-word input block: constants, key, 32-bit counter, nonce. *)
Definition chacha20_init (key nonce : bytes) (counter : Z) : list Z :=
  [0x61707865; 0x3320646e; 0x79622d32; 0x6b206574]
    ++ le_words 8 key ++ [counter mod 2 ^ 32] ++ le_words 3 nonce.

Definition chacha20_block (key nonce : bytes) (counter : Z) : bytes :=
  let st0 := chacha20_init key nonce counter in
  let st := Nat.iter 10 double_round st0 in
  flat_map (le_encode 4) (zip_with add32 st st0).

(** Byte [i] of the keystream that starts at block counter [ic]. *)
Definition keystream_byte (key nonce : bytes) (ic : Z) (i : nat) : Z :=
  nth (i mod 64)%nat (chacha20_block key nonce (ic + Z.of_nat (i / 64))) 0.

Fixpoint stream_xor_from (key nonce : bytes) (ic : Z) (i : nat) (m : bytes)
    : bytes :=
  match m with
  | [] => []
  | b :: m' =>
      Z.lxor b (keystream_byte key nonce ic i)
        :: stream_xor_from key nonce ic (S i) m'
  end.

(** [crypto_stream_chacha20_ietf_xor_ic]: the message xored with the
    keystream from block [ic] on. *)
Definition stream_xor_ic (key nonce : bytes) (ic : Z) (m : bytes) : bytes :=
  stream_xor_from key nonce ic 0 m.

(** *** Poly1305 *)

Definition p1305 : Z := 2 ^ 130 - 5.

Definition clamp (r : Z) : Z := Z.land r 0x0ffffffc0ffffffc0ffffffc0fffffff.

(** The message cut into blocks of [n] bytes, the last one possibly
    shorter; [fuel] bounds the number of blocks. *)
Fixpoint chunks (fuel n : nat) (l : bytes) : list bytes :=
  match fuel with
  | O => []
  | S f =>
      match l with
      | [] => []
      | _ => take n l :: chunks f n (drop n l)
      end
  end.

Definition poly1305_block (r acc : Z) (blk : bytes) : Z :=
  ((acc + le_decode (blk ++ [1])) * r) mod p1305.

(** The tag of [msg] under the 32-byte one-time key [otk]. *)
Definition poly1305 (otk msg : bytes) : bytes :=
  let r := clamp (le_decode (take 16 otk)) in
  let s := le_decode (take 16 (drop 16 otk)) in
  let acc := fold_left (poly1305_block r) (chunks (length msg) 16 msg) 0 in
  le_encode 16 ((acc + s) mod 2 ^ 128).

(** *** The AEAD construction *)

(** Zero padding to the next multiple of 16: [(0x10 - len) & 0xf] bytes. *)
Definition pad16 (l : bytes) : bytes :=
  replicate (Z.to_nat (Z.land (16 - Z.of_nat (length l)) 15)) 0.

Definition mac_data (ad c : bytes) : bytes :=
  ad ++ pad16 ad ++ c ++ pad16 c
     ++ le_encode 8 (Z.of_nat (length ad))
     ++ le_encode 8 (Z.of_nat (length c)).

(** The tag of ciphertext body [c] with associated data [ad]: Poly1305
    keyed by keystream block 0. *)
Definition aead_tag (key nonce ad c : bytes) : bytes :=
  poly1305 (chacha20_block key nonce 0) (mac_data ad c).

(** The ciphertext of [m]: the message xored with the keystream from
    block 1 on, followed by the tag of that body. *)
Definition seal (m ad npub k : bytes) : bytes :=
  let c := stream_xor_ic k npub 1 m in
  c ++ aead_tag k npub ad c.

(** Modelled from the spec: libsodium's
    [crypto_aead_chacha20poly1305_ietf_encrypt], which is not under src/.
    A message longer than [MESSAGEBYTES_MAX] aborts the process
    ([sodium_misuse]); otherwise the body is the message xored with the
    keystream from block 1, the tag follows it, the reported length is
    [mlen + ABYTES] and the routine returns 0. *)
Definition encrypt (m ad npub k : bytes) : option (Z * bytes * Z) :=
  let mlen := Z.of_nat (length m) in
  if crypto_aead_chacha20poly1305_ietf_MESSAGEBYTES_MAX <? mlen then None
  else
    Some (0, seal m ad npub k,
          mlen + crypto_aead_chacha20poly1305_ietf_ABYTES).

(** Modelled from the spec: libsodium's
    [crypto_aead_chacha20poly1305_ietf_decrypt], which is not under src/.
    A ciphertext shorter than the tag is refused without touching the
    message buffer.  Otherwise the tag is recomputed over the associated
    data and the body and compared with the trailing 16 bytes: on a
    mismatch the message buffer is zeroed, on a match the body is xored
    with the keystream.  The reported length is 0 on every failure. *)
Definition decrypt (c ad npub k : bytes) : Z * bytes * Z :=
  let clen := Z.of_nat (length c) in
  if clen <? crypto_aead_chacha20poly1305_ietf_ABYTES then (-1, [], 0)
  else
    let mlen := Z.to_nat (clen - crypto_aead_chacha20poly1305_ietf_ABYTES) in
    let body := take mlen c in
    let mac := drop mlen c in
    if bool_decide (aead_tag k npub ad body = mac)
    then (0, stream_xor_ic k npub 1 body, Z.of_nat mlen)
    else (-1, replicate mlen 0, 0).

(** Modelled from the spec: the library the adapter is linked against,
    for any model [init] of [sodium_init] over a library state [L]. *)
Definition provider {L : Type} (init : L -> Z * L) : Provider L :=
  mkProvider init encrypt decrypt.

End Ietf.

(** ** Callers *)

(** Two models of [sodium_init].  A healthy library initialises on the first
    call (0) and reports that it is initialised afterwards (1); a broken
    one fails every time. *)
Definition init_healthy (initialized : bool) : Z * bool :=
  (if initialized then 1 else 0, true).

Definition init_broken (s : unit) : Z * unit := (-1, s).

(** A caller's memory: the output buffer and output length, and the four
    input buffers. *)
Definition p_out : ptr := 0%nat.
Definition p_len : ptr := 0%nat.
Definition p_in : ptr := 1%nat.
Definition p_ad : ptr := 2%nat.
Definition p_nonce : ptr := 3%nat.
Definition p_key : ptr := 4%nat.

Definition arena (out inp ad nonce key : bytes) : Mem :=
  mkMem (<[p_out := out]> (<[p_in := inp]> (<[p_ad := ad]>
           (<[p_nonce := nonce]> (<[p_key := key]> ∅)))))
        (<[p_len := 0]> ∅).

Definition fresh {L : Type} (l : L) (out inp ad nonce key : bytes) : World L :=
  mkWorld l (arena out inp ad nonce key) [].

Definition bytes_of_string (s : string) : bytes :=
  map (fun a => Z.of_N (N_of_ascii a)) (list_ascii_of_string s).

(** Bit [i] of a buffer flipped (bit 0 is the low bit of the first byte). *)
Definition flip_bit (l : bytes) (i : nat) : bytes :=
  alter (fun b => Z.lxor b (2 ^ Z.of_nat (i mod 8))) (i / 8)%nat l.

(** What a caller of the entry points sees of a call: the returned status,
    the reported length and that many bytes of the output buffer. *)
Definition outcome {L : Type} (r : option (Z * World L)) (out len : ptr)
    : option (Z * Z * bytes) :=
  match r with
  | Some (st, w) =>
      match cells (mem w) !! len with
      | Some n =>
          match load_bytes (mem w) out n with
          | Some b => Some (st, n, b)
          | None => None
          end
      | None => None
      end
  | None => None
  end.

(** ** Counting keys and tags *)

(** The 256 bytes, and the buffers of [n] bytes. *)
Definition all_bytes : bytes := seqZ 0 256.

Fixpoint byte_lists (n : nat) : list bytes :=
  match n with
  | O => [[]]
  | S n' => byte_lists n' ≫= (fun l => (fun b => b :: l) <$> all_bytes)
  end.

(** The buffers of [n + pad] bytes whose last [pad] bytes are zero. *)
Definition padded (n pad : nat) : list bytes :=
  (fun l => l ++ replicate pad 0) <$> byte_lists n.

(** ** The scenario of the spec *)

(** A key of 32 zero bytes, a nonce of 12 zero bytes, the plaintext
    ["hello"], no associated data, and room for 21 bytes of output. *)
Definition zero_key : bytes := replicate 32 0.
Definition zero_nonce : bytes := replicate 12 0.
Definition ones_nonce : bytes := replicate 12 1.
Definition hello : bytes := bytes_of_string "hello".

Definition hello_world : World bool :=
  fresh false (replicate 21 0) hello [] zero_nonce zero_key.

(** The 21 bytes the construction gives for this input. *)
Definition hello_sealed : bytes :=
  [247; 98; 139; 210; 58; 220; 233; 98; 52; 11; 111; 214; 160; 164; 209;
   254; 115; 111; 41; 69; 111].

(** The tag of the empty message without associated data under [kb] and
    the zero nonce; it is the whole ciphertext of the empty message. *)
Definition empty_tag (kb : bytes) : bytes :=
  Ietf.aead_tag kb zero_nonce [] [].

(** The world of a caller that received [ct] and wants it opened. *)
Definition reply_world (ct nonce key : bytes) : World bool :=
  fresh true (replicate 5 255) ct [] nonce key.

(** The worlds the calls of the scenario end in: the ciphertext and its
    length after encryption, the plaintext and its length after decryption,
    a zeroed buffer and length 0 after decryption under another nonce. *)
Definition hello_done : World bool :=
  mkWorld true
    (mkMem (bufs (arena hello_sealed hello [] zero_nonce zero_key))
           (<[p_len := 21]> ∅))
    [call_sodium_init; call_ietf_encrypt].

Definition reply_done : World bool :=
  mkWorld true
    (mkMem (bufs (arena hello hello_sealed [] zero_nonce zero_key))
           (<[p_len := 5]> ∅))
    [call_sodium_init; call_ietf_decrypt].

Definition reply_refused : World bool :=
  mkWorld true
    (arena (replicate 5 0) hello_sealed [] ones_nonce zero_key)
    [call_sodium_init; call_ietf_decrypt].

(** A second caller with the same inputs, another output buffer and a
    library that is already initialised. *)
Definition hello_again : World bool :=
  fresh true (replicate 24 9) hello [] zero_nonce zero_key.

Definition hello_again_done : World bool :=
  mkWorld true
    (mkMem (bufs (arena (hello_sealed ++ [9; 9; 9]) hello [] zero_nonce
                    zero_key))
           (<[p_len := 21]> ∅))
    [call_sodium_init; call_ietf_encrypt].

(** A caller whose library does not initialise. *)
Definition broken_world : World unit :=
  fresh tt (replicate 21 7) hello [] zero_nonce zero_key.

(** The test vector of RFC 8439, section 2.8.2. *)
Definition rfc_key : bytes := map (fun i => 128 + Z.of_nat i) (seq 0 32).
Definition rfc_nonce : bytes :=
  [0x07; 0x00; 0x00; 0x00; 0x40; 0x41; 0x42; 0x43; 0x44; 0x45; 0x46; 0x47].
Definition rfc_ad : bytes :=
  [0x50; 0x51; 0x52; 0x53; 0xc0; 0xc1; 0xc2; 0xc3; 0xc4; 0xc5; 0xc6; 0xc7].
Definition rfc_plaintext : bytes :=
  bytes_of_string
    "Ladies and Gentlemen of the class of '99: If I could offer you only one tip for the future, sunscreen would be it.".
Definition rfc_ciphertext_head : bytes :=
  [0xd3; 0x1a; 0x8d; 0x34; 0x64; 0x8e; 0x60; 0xdb;
   0x7b; 0x86; 0xaf; 0xbc; 0x53; 0xef; 0x7e; 0xc2].
Definition rfc_tag : bytes :=
  [0x1a; 0xe1; 0x0b; 0x59; 0x4f; 0x09; 0xe2; 0x6a;
   0x7e; 0x90; 0x2e; 0xcb; 0xd0; 0x60; 0x06; 0x91].

(** ** Further callers *)

(** What a call leaves for its caller to see: the status and the memory. *)
Definition seen {L : Type} (r : option (Z * World L)) : option (Z * Mem) :=
  match r with
  | Some (st, w) => Some (st, mem w)
  | None => None
  end.

(** A caller that encrypts and decrypts in place: one buffer holds the
    plaintext and has room for the tag behind it. *)
Definition inplace_world : World bool :=
  fresh false (hello ++ replicate 16 0) [] [] zero_nonce zero_key.

(** A caller whose key buffer holds 31 bytes, and one whose output buffer
    holds 20 bytes, one short of the 21 the ciphertext of ["hello"] needs. *)
Definition short_key_world : World bool :=
  fresh false (replicate 21 0) hello [] zero_nonce (replicate 31 0).

Definition small_output_world : World bool :=
  fresh false (replicate 20 0) hello [] zero_nonce zero_key.

(** A caller with the memory of [hello_world] whose library is already
    initialised, and one whose message buffer holds 4 bytes, one short of
    the 5 the plaintext needs. *)
Definition hello_world_warm : World bool :=
  mkWorld true (mem hello_world) [call_sodium_init; call_ietf_encrypt].

Definition small_message_world : World bool :=
  fresh true (replicate 4 255) hello_sealed [] zero_nonce zero_key.

(** A caller that received the 21 ciphertext bytes and has room for the
    plaintext, but whose key object holds 31 bytes. *)
Definition short_key_reply_world : World bool :=
  fresh true (replicate 5 255) hello_sealed [] zero_nonce (replicate 31 0).

(** Closed goals are settled by evaluation. *)
Ltac by_eval :=
  lazymatch goal with
  | |- is_Some _ => vm_compute; eexists; reflexivity
  | |- (_ <= _)%Z => apply Z.leb_le; vm_compute; reflexivity
  | |- (_ < _)%Z => apply Z.ltb_lt; vm_compute; reflexivity
  | |- _ => vm_compute; reflexivity
  end.

(** * Properties *)

(** ** The smoke-test stub *)

Lemma my_add_range (a b : Z) : 0 <= my_add a b < UINT32_MOD.
Proof. unfold my_add, UINT32_MOD. apply Z.mod_pos_bound. lia. Qed.

(** C10: on 32-bit unsigned arguments [my_add] returns their sum modulo
    [2^32]: the sum itself when it fits, the sum less [2^32] when it does
    not; the result is again a 32-bit unsigned integer and depends on
    nothing but the two arguments. *)
Theorem my_add_wraps (a b : Z) :
  0 <= a < 2 ^ 32 -> 0 <= b < 2 ^ 32 ->
  0 <= my_add a b < 2 ^ 32
  /\ my_add a b = (a + b) mod 2 ^ 32
  /\ (my_add a b - (a + b)) mod 2 ^ 32 = 0
  /\ (a + b < 2 ^ 32 -> my_add a b = a + b)
  /\ (2 ^ 32 <= a + b -> my_add a b = a + b - 2 ^ 32).
Proof.
  intros Ha Hb. pose proof (my_add_range a b) as Hr.
  unfold my_add, UINT32_MOD in *.
  repeat split; try lia.
  - rewrite Zminus_mod, Zmod_mod, <- Zminus_mod, Z.sub_diag. reflexivity.
  - intros Hs. apply Z.mod_small. lia.
  - intros Hs.
    replace (a + b) with ((a + b - 2 ^ 32) + 1 * 2 ^ 32) at 1 by ring.
    rewrite Z_mod_plus_full. apply Z.mod_small. lia.
Qed.

Lemma my_add_wraps_witness :
  my_add 4294967295 2 = 1 /\ my_add 3 4 = 7.
Proof.
  split.
  - pose proof (my_add_wraps 4294967295 2 ltac:(lia) ltac:(lia))
      as (_ & _ & _ & _ & H).
    rewrite H by lia. reflexivity.
  - pose proof (my_add_wraps 3 4 ltac:(lia) ltac:(lia)) as (_ & _ & _ & H & _).
    apply H. lia.
Defined.

(** ** The accessors *)

(** C5: in every world the three accessors return 32, 12 and 16 and leave
    the world (library state, memory, call log) as it was. *)
Theorem accessors_are_constants {L : Type} (w : World L) :
  chacha20_poly1305_keybytes w = Some (32, w)
  /\ chacha20_poly1305_noncebytes w = Some (12, w)
  /\ chacha20_poly1305_abytes w = Some (16, w).
Proof. repeat split. Qed.

(** ** The initialisation guard *)

Section Guard.

Context {L : Type} (P : Provider L).

Lemma encrypt_guard_fail w c clen_p m mlen ad adlen npub k :
  (init_fn P (lib w)).1 < 0 ->
  chacha20_poly1305_encrypt P c clen_p m mlen ad adlen npub k w
  = Some (-1, mkWorld (init_fn P (lib w)).2 (mem w)
                      (calls w ++ [call_sodium_init])).
Proof.
  intros Hr. unfold chacha20_poly1305_encrypt, bind, sodium_init.
  destruct (init_fn P (lib w)) as [r l']. simpl in *.
  apply Z.ltb_lt in Hr. rewrite Hr. reflexivity.
Qed.

Lemma decrypt_guard_fail w m mlen_p c clen ad adlen npub k :
  (init_fn P (lib w)).1 < 0 ->
  chacha20_poly1305_decrypt P m mlen_p c clen ad adlen npub k w
  = Some (-1, mkWorld (init_fn P (lib w)).2 (mem w)
                      (calls w ++ [call_sodium_init])).
Proof.
  intros Hr. unfold chacha20_poly1305_decrypt, bind, sodium_init.
  destruct (init_fn P (lib w)) as [r l']. simpl in *.
  apply Z.ltb_lt in Hr. rewrite Hr. reflexivity.
Qed.

Lemma encrypt_guard_pass w c clen_p m mlen ad adlen npub k :
  0 <= (init_fn P (lib w)).1 ->
  chacha20_poly1305_encrypt P c clen_p m mlen ad adlen npub k w
  = crypto_aead_chacha20poly1305_ietf_encrypt P c clen_p m mlen ad adlen
      None npub k
      (mkWorld (init_fn P (lib w)).2 (mem w) (calls w ++ [call_sodium_init])).
Proof.
  intros Hr. unfold chacha20_poly1305_encrypt, bind, sodium_init.
  destruct (init_fn P (lib w)) as [r l']. simpl in *.
  apply Z.ltb_ge in Hr. rewrite Hr. reflexivity.
Qed.

Lemma decrypt_guard_pass w m mlen_p c clen ad adlen npub k :
  0 <= (init_fn P (lib w)).1 ->
  chacha20_poly1305_decrypt P m mlen_p c clen ad adlen npub k w
  = crypto_aead_chacha20poly1305_ietf_decrypt P m mlen_p None c clen
      ad adlen npub k
      (mkWorld (init_fn P (lib w)).2 (mem w) (calls w ++ [call_sodium_init])).
Proof.
  intros Hr. unfold chacha20_poly1305_decrypt, bind, sodium_init.
  destruct (init_fn P (lib w)) as [r l']. simpl in *.
  apply Z.ltb_ge in Hr. rewrite Hr. reflexivity.
Qed.

(** What a returning call of the provider's encryption did. *)
Lemma provider_encrypt_inv w c clen_p m mlen ad adlen nsec npub k r w' :
  crypto_aead_chacha20poly1305_ietf_encrypt P c clen_p m mlen ad adlen
    nsec npub k w = Some (r, w') ->
  exists mb adb nb kb cb clen m1 m2,
    load_bytes (mem w) m mlen = Some mb
    /\ load_bytes (mem w) ad adlen = Some adb
    /\ load_bytes (mem w) npub 12 = Some nb
    /\ load_bytes (mem w) k 32 = Some kb
    /\ encrypt_fn P mb adb nb kb = Some (r, cb, clen)
    /\ store_bytes (mem w) c cb = Some m1
    /\ store_u64 m1 clen_p clen = Some m2
    /\ w' = mkWorld (lib w) m2 (calls w ++ [call_ietf_encrypt]).
Proof.
  unfold crypto_aead_chacha20poly1305_ietf_encrypt,
    crypto_aead_chacha20poly1305_ietf_NPUBBYTES,
    crypto_aead_chacha20poly1305_ietf_KEYBYTES.
  intros H.
  destruct (load_bytes (mem w) m mlen) as [mb|] eqn:?; [|discriminate].
  destruct (load_bytes (mem w) ad adlen) as [adb|] eqn:?; [|discriminate].
  destruct (load_bytes (mem w) npub 12) as [nb|] eqn:?; [|discriminate].
  destruct (load_bytes (mem w) k 32) as [kb|] eqn:?; [|discriminate].
  destruct (encrypt_fn P mb adb nb kb) as [[[r0 cb] clen]|] eqn:?;
    [|discriminate].
  destruct (store_bytes (mem w) c cb) as [m1|] eqn:E1; [|discriminate].
  destruct (store_u64 m1 clen_p clen) as [m2|] eqn:E2; [|discriminate].
  inversion H; subst. exists mb, adb, nb, kb, cb, clen, m1, m2.
  repeat split; auto.
Qed.

Lemma provider_decrypt_inv w m mlen_p nsec c clen ad adlen npub k r w' :
  crypto_aead_chacha20poly1305_ietf_decrypt P m mlen_p nsec c clen
    ad adlen npub k w = Some (r, w') ->
  exists cb adb nb kb mb mlen m1 m2,
    load_bytes (mem w) c clen = Some cb
    /\ load_bytes (mem w) ad adlen = Some adb
    /\ load_bytes (mem w) npub 12 = Some nb
    /\ load_bytes (mem w) k 32 = Some kb
    /\ decrypt_fn P cb adb nb kb = (r, mb, mlen)
    /\ store_bytes (mem w) m mb = Some m1
    /\ store_u64 m1 mlen_p mlen = Some m2
    /\ w' = mkWorld (lib w) m2 (calls w ++ [call_ietf_decrypt]).
Proof.
  unfold crypto_aead_chacha20poly1305_ietf_decrypt,
    crypto_aead_chacha20poly1305_ietf_NPUBBYTES,
    crypto_aead_chacha20poly1305_ietf_KEYBYTES.
  intros H.
  destruct (load_bytes (mem w) c clen) as [cb|] eqn:?; [|discriminate].
  destruct (load_bytes (mem w) ad adlen) as [adb|] eqn:?; [|discriminate].
  destruct (load_bytes (mem w) npub 12) as [nb|] eqn:?; [|discriminate].
  destruct (load_bytes (mem w) k 32) as [kb|] eqn:?; [|discriminate].
  destruct (decrypt_fn P cb adb nb kb) as [[r0 mb] mlen] eqn:?.
  destruct (store_bytes (mem w) m mb) as [m1|] eqn:E1; [|discriminate].
  destruct (store_u64 m1 mlen_p mlen) as [m2|] eqn:E2; [|discriminate].
  inversion H; subst. exists cb, adb, nb, kb, mb, mlen, m1, m2.
  repeat split; auto.
Qed.

(** C6: when [sodium_init] fails, [chacha20_poly1305_encrypt] and
    [chacha20_poly1305_decrypt] return -1 whatever their arguments are,
    the memory (output buffer and output length included) is what it
    was, and the only library call made is [sodium_init]: the provider's
    encryption or decryption routine is not invoked. *)
Theorem init_failure_aborts_before_output
    (w : World L)
    (c clen_p m : ptr) (mlen : Z) (ad : ptr) (adlen : Z) (npub k : ptr)
    (m' mlen_p' c' : ptr) (clen' : Z) (ad' : ptr) (adlen' : Z)
    (npub' k' : ptr) :
  (init_fn P (lib w)).1 < 0 ->
  (exists w1,
      chacha20_poly1305_encrypt P c clen_p m mlen ad adlen npub k w
      = Some (-1, w1)
      /\ mem w1 = mem w
      /\ calls w1 = calls w ++ [call_sodium_init])
  /\ (exists w1,
      chacha20_poly1305_decrypt P m' mlen_p' c' clen' ad' adlen' npub' k' w
      = Some (-1, w1)
      /\ mem w1 = mem w
      /\ calls w1 = calls w ++ [call_sodium_init]).
Proof.
  intros Hr. split; eexists; split.
  - apply encrypt_guard_fail, Hr.
  - split; reflexivity.
  - apply decrypt_guard_fail, Hr.
  - split; reflexivity.
Qed.

End Guard.

(** ** Memory *)

Lemma load_bytes_length m p n b :
  load_bytes m p n = Some b -> Z.of_nat (length b) = n.
Proof.
  unfold load_bytes. destruct (n =? 0) eqn:En.
  - intros [= <-]. apply Z.eqb_eq in En. simpl. lia.
  - destruct (bufs m !! p) as [b0|]; [|discriminate].
    destruct (0 <? n) eqn:E0; simpl; [|discriminate].
    destruct (n <=? Z.of_nat (length b0)) eqn:E1; [|discriminate].
    intros [= <-]. rewrite length_take. apply Z.ltb_lt in E0.
    apply Z.leb_le in E1. lia.
Qed.

Lemma store_bytes_load m p data m1 :
  store_bytes m p data = Some m1 ->
  load_bytes m1 p (Z.of_nat (length data)) = Some data.
Proof.
  unfold store_bytes, load_bytes.
  destruct data as [|d data]; [intros _; reflexivity|].
  assert (Hpos : 0 < Z.of_nat (length (d :: data))) by (simpl; lia).
  remember (d :: data) as l eqn:El. clear El d data.
  destruct (bufs m !! p) as [b|] eqn:Eb; [|discriminate].
  destruct (Nat.leb_spec (length l) (length b)) as [Hle|Hle]; [|discriminate].
  intros [= <-]. cbn [bufs]. rewrite lookup_insert_eq.
  destruct (Z.eqb_spec (Z.of_nat (length l)) 0) as [E|_]; [lia|].
  destruct (Z.ltb_spec 0 (Z.of_nat (length l))) as [_|E]; [|lia].
  destruct (Z.leb_spec (Z.of_nat (length l))
              (Z.of_nat (length (l ++ drop (length l) b)))) as [_|E].
  - simpl. rewrite Nat2Z.id, take_app_length. reflexivity.
  - rewrite length_app in E. lia.
Qed.

Lemma store_bytes_cells m p data m1 :
  store_bytes m p data = Some m1 -> cells m1 = cells m.
Proof.
  unfold store_bytes. destruct data; [intros [= <-]; reflexivity|].
  destruct (bufs m !! p); [|discriminate].
  destruct (_ <=? _)%nat; [|discriminate]. intros [= <-]. reflexivity.
Qed.

Lemma store_bytes_total m p data :
  Z.of_nat (length data) <= capacity m p ->
  exists m1, store_bytes m p data = Some m1.
Proof.
  unfold store_bytes, capacity. destruct data as [|d data]; [eauto|].
  destruct (bufs m !! p) as [b|]; simpl length; [|lia].
  intros Hc. destruct (Nat.leb_spec (S (length data)) (length b)); [eauto|lia].
Qed.

Lemma store_u64_bufs m p v m1 : store_u64 m p v = Some m1 -> bufs m1 = bufs m.
Proof.
  unfold store_u64. destruct (cells m !! p); [|discriminate].
  intros [= <-]. reflexivity.
Qed.

Lemma store_u64_cell m p v m1 :
  store_u64 m p v = Some m1 -> cells m1 !! p = Some v.
Proof.
  unfold store_u64. destruct (cells m !! p); [|discriminate].
  intros [= <-]. cbn [cells]. apply lookup_insert_eq.
Qed.

Lemma store_u64_total m p v :
  is_Some (cells m !! p) -> exists m1, store_u64 m p v = Some m1.
Proof. unfold store_u64. intros [x ->]. eauto. Qed.

Lemma load_bytes_bufs m m' p n :
  bufs m' = bufs m -> load_bytes m' p n = load_bytes m p n.
Proof. unfold load_bytes. intros ->. reflexivity. Qed.

(** ** The construction *)

Lemma le_encode_length n x : length (Ietf.le_encode n x) = n.
Proof. unfold Ietf.le_encode. rewrite length_map, length_seq. reflexivity. Qed.

Lemma le_encode_wf n x : wf_bytes (Ietf.le_encode n x).
Proof.
  unfold wf_bytes, Ietf.le_encode. apply List.Forall_forall. intros b Hb.
  apply in_map_iff in Hb as (i & <- & _). unfold is_byte.
  apply Z.mod_pos_bound. lia.
Qed.

Lemma poly1305_length otk msg : length (Ietf.poly1305 otk msg) = 16%nat.
Proof. apply le_encode_length. Qed.

Lemma aead_tag_length k n ad c : length (Ietf.aead_tag k n ad c) = 16%nat.
Proof. apply poly1305_length. Qed.

Lemma aead_tag_wf k n ad c : wf_bytes (Ietf.aead_tag k n ad c).
Proof. apply le_encode_wf. Qed.

Lemma stream_xor_from_length k n ic i m :
  length (Ietf.stream_xor_from k n ic i m) = length m.
Proof.
  revert i. induction m as [|b m IH]; intros i; simpl; [reflexivity|].
  rewrite IH. reflexivity.
Qed.

Lemma stream_xor_from_involutive k n ic i m :
  Ietf.stream_xor_from k n ic i (Ietf.stream_xor_from k n ic i m) = m.
Proof.
  revert i. induction m as [|b m IH]; intros i; simpl; [reflexivity|].
  rewrite IH. f_equal.
  rewrite Z.lxor_assoc, Z.lxor_nilpotent, Z.lxor_0_r. reflexivity.
Qed.

Lemma stream_xor_ic_length k n ic m :
  length (Ietf.stream_xor_ic k n ic m) = length m.
Proof. apply stream_xor_from_length. Qed.

Lemma stream_xor_ic_involutive k n ic m :
  Ietf.stream_xor_ic k n ic (Ietf.stream_xor_ic k n ic m) = m.
Proof. apply stream_xor_from_involutive. Qed.

(** What [Ietf.encrypt] returns when it returns. *)
Lemma ietf_encrypt_inv m ad n k r cb clen :
  Ietf.encrypt m ad n k = Some (r, cb, clen) ->
  r = 0
  /\ cb = Ietf.seal m ad n k
  /\ clen = Z.of_nat (length m) + 16
  /\ Z.of_nat (length cb) = clen
  /\ Z.of_nat (length m) <= crypto_aead_chacha20poly1305_ietf_MESSAGEBYTES_MAX.
Proof.
  unfold Ietf.encrypt, crypto_aead_chacha20poly1305_ietf_ABYTES.
  destruct (_ <? _) eqn:E; [discriminate|]. intros [= <- <- <-].
  apply Z.ltb_ge in E. repeat split; auto. unfold Ietf.seal.
  rewrite length_app, aead_tag_length, stream_xor_ic_length. lia.
Qed.

Lemma ietf_encrypt_total m ad n k :
  Z.of_nat (length m) <= crypto_aead_chacha20poly1305_ietf_MESSAGEBYTES_MAX ->
  Ietf.encrypt m ad n k
  = Some (0, Ietf.seal m ad n k, Z.of_nat (length m) + 16).
Proof.
  intros H. unfold Ietf.encrypt. apply Z.ltb_ge in H. rewrite H. reflexivity.
Qed.

(** The two ways [Ietf.decrypt] can end. *)
Lemma ietf_decrypt_cases c ad n k :
  let mlen := (length c - 16)%nat in
  (Ietf.decrypt c ad n k
     = (0, Ietf.stream_xor_ic k n 1 (take mlen c), Z.of_nat mlen)
   /\ (16 <= length c)%nat
   /\ Ietf.aead_tag k n ad (take mlen c) = drop mlen c)
  \/ (Ietf.decrypt c ad n k = (-1, replicate mlen 0, 0)
      /\ ((length c < 16)%nat
          \/ Ietf.aead_tag k n ad (take mlen c) <> drop mlen c)).
Proof.
  intros mlen. unfold Ietf.decrypt, crypto_aead_chacha20poly1305_ietf_ABYTES.
  destruct (Z.ltb_spec (Z.of_nat (length c)) 16) as [Hs|Hs].
  - right. replace mlen with 0%nat by (subst mlen; lia). split; [reflexivity|].
    left. lia.
  - replace (Z.to_nat (Z.of_nat (length c) - 16)) with mlen
      by (subst mlen; lia).
    destruct (bool_decide_reflect
                (Ietf.aead_tag k n ad (take mlen c) = drop mlen c)) as [He|He].
    + left. repeat split; auto. lia.
    + right. split; [reflexivity|]. right. exact He.
Qed.

(** The provider's round trip: a tagged ciphertext decrypts to its message. *)
Lemma ietf_decrypt_encrypt m ad n k :
  Ietf.decrypt (Ietf.seal m ad n k) ad n k = (0, m, Z.of_nat (length m)).
Proof.
  unfold Ietf.seal. set (c := Ietf.stream_xor_ic k n 1 m).
  assert (Hl : length c = length m) by apply stream_xor_ic_length.
  destruct (ietf_decrypt_cases (c ++ Ietf.aead_tag k n ad c) ad n k)
    as [(H & _ & _)|(_ & [H|H])];
    rewrite length_app, aead_tag_length in *;
    replace (length c + 16 - 16)%nat with (length c) in * by lia.
  - rewrite H, take_app_length. unfold c at 1.
    rewrite stream_xor_ic_involutive, Hl. reflexivity.
  - lia.
  - rewrite take_app_length, drop_app_length in H. congruence.
Qed.

(** ** The adapter linked against the construction *)

Section Linked.

Context {L : Type} (init : L -> Z * L).

Lemma seal_length pt adb nb kb :
  Z.of_nat (length (Ietf.seal pt adb nb kb)) = Z.of_nat (length pt) + 16.
Proof.
  unfold Ietf.seal.
  rewrite length_app, aead_tag_length, stream_xor_ic_length. lia.
Qed.

(** A call of [chacha20_poly1305_encrypt] on readable inputs and a large
    enough output runs to the end and leaves the sealed message. *)
Lemma encrypt_runs w c clen_p m mlen ad adlen npub k pt adb nb kb :
  0 <= (init (lib w)).1 ->
  load_bytes (mem w) m mlen = Some pt ->
  load_bytes (mem w) ad adlen = Some adb ->
  load_bytes (mem w) npub 12 = Some nb ->
  load_bytes (mem w) k 32 = Some kb ->
  mlen <= crypto_aead_chacha20poly1305_ietf_MESSAGEBYTES_MAX ->
  mlen + 16 <= capacity (mem w) c ->
  is_Some (cells (mem w) !! clen_p) ->
  exists w1,
    chacha20_poly1305_encrypt (Ietf.provider init) c clen_p m mlen ad adlen
      npub k w = Some (0, w1)
    /\ calls w1 = calls w ++ [call_sodium_init; call_ietf_encrypt]
    /\ cells (mem w1) !! clen_p = Some (mlen + 16)
    /\ load_bytes (mem w1) c (mlen + 16) = Some (Ietf.seal pt adb nb kb).
Proof.
  intros Hi Hm Had Hn Hk Hmax Hcap Hcell.
  pose proof (load_bytes_length _ _ _ _ Hm) as Hlen.
  destruct (store_bytes_total (mem w) c (Ietf.seal pt adb nb kb))
    as [m1 H1].
  { rewrite seal_length. lia. }
  destruct (store_u64_total m1 clen_p (mlen + 16)) as [m2 H2].
  { rewrite (store_bytes_cells _ _ _ _ H1). exact Hcell. }
  exists (mkWorld (init (lib w)).2 m2
            (calls w ++ [call_sodium_init; call_ietf_encrypt])).
  cbn [mem calls]. repeat split.
  - rewrite encrypt_guard_pass by exact Hi.
    unfold crypto_aead_chacha20poly1305_ietf_encrypt,
      crypto_aead_chacha20poly1305_ietf_NPUBBYTES,
      crypto_aead_chacha20poly1305_ietf_KEYBYTES.
    cbn [mem lib calls encrypt_fn Ietf.provider]. rewrite Hm, Had, Hn, Hk.
    rewrite ietf_encrypt_total by lia.
    rewrite H1, Hlen, H2, <- app_assoc. reflexivity.
  - eapply store_u64_cell, H2.
  - rewrite (load_bytes_bufs m1 m2) by (eapply store_u64_bufs, H2).
    rewrite <- Hlen, <- (seal_length pt adb nb kb).
    eapply store_bytes_load, H1.
Qed.

(** A call of [chacha20_poly1305_decrypt] on readable inputs and a large
    enough output runs to the end and leaves what [Ietf.decrypt] computes
    from the bytes behind the pointers. *)
Lemma decrypt_runs w m mlen_p c clen ad adlen npub k cb adb nb kb :
  0 <= (init (lib w)).1 ->
  load_bytes (mem w) c clen = Some cb ->
  load_bytes (mem w) ad adlen = Some adb ->
  load_bytes (mem w) npub 12 = Some nb ->
  load_bytes (mem w) k 32 = Some kb ->
  clen - 16 <= capacity (mem w) m ->
  is_Some (cells (mem w) !! mlen_p) ->
  exists w1,
    chacha20_poly1305_decrypt (Ietf.provider init) m mlen_p c clen ad adlen
      npub k w = Some ((Ietf.decrypt cb adb nb kb).1.1, w1)
    /\ calls w1 = calls w ++ [call_sodium_init; call_ietf_decrypt]
    /\ cells (mem w1) !! mlen_p = Some (Ietf.decrypt cb adb nb kb).2
    /\ load_bytes (mem w1) m
         (Z.of_nat (length (Ietf.decrypt cb adb nb kb).1.2))
       = Some (Ietf.decrypt cb adb nb kb).1.2.
Proof.
  intros Hi Hc Had Hn Hk Hcap Hcell.
  pose proof (load_bytes_length _ _ _ _ Hc) as Hlen.
  destruct (store_bytes_total (mem w) m (Ietf.decrypt cb adb nb kb).1.2)
    as [m1 H1].
  { destruct (ietf_decrypt_cases cb adb nb kb) as [(H & ? & _)|(H & _)];
      rewrite H; cbn [fst snd].
    - rewrite stream_xor_ic_length, length_take. lia.
    - rewrite length_replicate.
      assert (0 <= capacity (mem w) m)
        by (unfold capacity; destruct (bufs (mem w) !! m); lia).
      lia. }
  destruct (store_u64_total m1 mlen_p (Ietf.decrypt cb adb nb kb).2)
    as [m2 H2].
  { rewrite (store_bytes_cells _ _ _ _ H1). exact Hcell. }
  exists (mkWorld (init (lib w)).2 m2
            (calls w ++ [call_sodium_init; call_ietf_decrypt])).
  cbn [mem calls]. repeat split.
  - rewrite decrypt_guard_pass by exact Hi.
    unfold crypto_aead_chacha20poly1305_ietf_decrypt,
      crypto_aead_chacha20poly1305_ietf_NPUBBYTES,
      crypto_aead_chacha20poly1305_ietf_KEYBYTES.
    cbn [mem lib calls decrypt_fn Ietf.provider]. rewrite Hc, Had, Hn, Hk.
    destruct (Ietf.decrypt cb adb nb kb) as [[r mb] mlen].
    cbn [fst snd] in *. rewrite H1, H2, <- app_assoc. reflexivity.
  - eapply store_u64_cell, H2.
  - rewrite (load_bytes_bufs m1 m2) by (eapply store_u64_bufs, H2).
    eapply store_bytes_load, H1.
Qed.

(** C1: a call of [chacha20_poly1305_encrypt] on a 32-byte key, a 12-byte
    nonce, a plaintext the construction accepts and any associated data
    succeeds and reports [mlen + 16] ciphertext bytes; a call of
    [chacha20_poly1305_decrypt] on these ciphertext bytes with the same
    key, nonce and associated data, in any world and through any pointers,
    succeeds, reports [mlen] bytes and leaves the original plaintext in
    the message buffer.  Both calls are made with a library that
    initialises and with output objects large enough. *)
Theorem encrypt_decrypt_roundtrip
    (w : World L) (c clen_p m : ptr) (mlen : Z) (ad : ptr) (adlen : Z)
    (npub k : ptr) (pt adb nb kb : bytes) :
  0 <= (init (lib w)).1 ->
  load_bytes (mem w) m mlen = Some pt ->
  load_bytes (mem w) ad adlen = Some adb ->
  load_bytes (mem w) npub 12 = Some nb ->
  load_bytes (mem w) k 32 = Some kb ->
  mlen <= crypto_aead_chacha20poly1305_ietf_MESSAGEBYTES_MAX ->
  mlen + 16 <= capacity (mem w) c ->
  is_Some (cells (mem w) !! clen_p) ->
  exists w1 ct,
    chacha20_poly1305_encrypt (Ietf.provider init) c clen_p m mlen ad adlen
      npub k w
    = Some (0, w1)
    /\ cells (mem w1) !! clen_p = Some (mlen + 16)
    /\ load_bytes (mem w1) c (mlen + 16) = Some ct
    /\ forall (w2 : World L) (m' mlen_p' c' ad' npub' k' : ptr),
         0 <= (init (lib w2)).1 ->
         load_bytes (mem w2) c' (mlen + 16) = Some ct ->
         load_bytes (mem w2) ad' adlen = Some adb ->
         load_bytes (mem w2) npub' 12
           = Some nb ->
         load_bytes (mem w2) k' 32
           = Some kb ->
         mlen <= capacity (mem w2) m' ->
         is_Some (cells (mem w2) !! mlen_p') ->
         exists w3,
           chacha20_poly1305_decrypt (Ietf.provider init) m' mlen_p' c'
             (mlen + 16) ad' adlen npub' k' w2 = Some (0, w3)
           /\ cells (mem w3) !! mlen_p' = Some mlen
           /\ load_bytes (mem w3) m' mlen = Some pt.
Proof.
  intros Hi Hm Had Hn Hk Hmax Hcap Hcell.
  pose proof (load_bytes_length _ _ _ _ Hm) as Hlen.
  destruct (encrypt_runs w c clen_p m mlen ad adlen npub k pt adb nb kb)
    as (w1 & Hrun & _ & Hcl & Hct); auto.
  exists w1, (Ietf.seal pt adb nb kb). repeat split; auto.
  intros w2 m' mlen_p' c' ad' npub' k' Hi' Hc' Had' Hn' Hk' Hcap' Hcell'.
  destruct (decrypt_runs w2 m' mlen_p' c' (mlen + 16) ad' adlen npub' k'
              (Ietf.seal pt adb nb kb) adb nb kb)
    as (w3 & Hrun' & _ & Hcl' & Hpt); auto; [lia|].
  rewrite ietf_decrypt_encrypt in *. cbn [fst snd] in *.
  rewrite Hlen in *. exists w3. auto.
Qed.

End Linked.

Section LinkedInversion.

Context {L : Type} (init : L -> Z * L).

(** Every returning call of [chacha20_poly1305_encrypt] either stopped at
    the guard or went through the provider as [encrypt_runs] describes. *)
Lemma encrypt_inv w c clen_p m mlen ad adlen npub k r w1 :
  chacha20_poly1305_encrypt (Ietf.provider init) c clen_p m mlen ad adlen
    npub k w = Some (r, w1) ->
  ((init (lib w)).1 < 0 /\ r = -1 /\ mem w1 = mem w
   /\ calls w1 = calls w ++ [call_sodium_init])
  \/ (0 <= (init (lib w)).1 /\ r = 0
      /\ calls w1 = calls w ++ [call_sodium_init; call_ietf_encrypt]
      /\ exists pt adb nb kb m1,
          load_bytes (mem w) m mlen = Some pt
          /\ load_bytes (mem w) ad adlen = Some adb
          /\ load_bytes (mem w) npub 12 = Some nb
          /\ load_bytes (mem w) k 32 = Some kb
          /\ Ietf.encrypt pt adb nb kb
             = Some (r, Ietf.seal pt adb nb kb, mlen + 16)
          /\ store_bytes (mem w) c (Ietf.seal pt adb nb kb) = Some m1
          /\ store_u64 m1 clen_p (mlen + 16) = Some (mem w1)).
Proof.
  intros H. destruct (Z.lt_ge_cases (init (lib w)).1 0) as [Hi|Hi].
  - left. rewrite encrypt_guard_fail in H by exact Hi.
    inversion H; subst. cbn. auto.
  - right. rewrite encrypt_guard_pass in H by exact Hi.
    apply provider_encrypt_inv in H
      as (pt & adb & nb & kb & cb & clen & m1 & m2
          & Hm & Had & Hn & Hk & He & H1 & H2 & ->).
    cbn [mem lib calls encrypt_fn Ietf.provider] in *.
    pose proof (load_bytes_length _ _ _ _ Hm) as Hlen.
    destruct (ietf_encrypt_inv _ _ _ _ _ _ _ He) as (-> & -> & -> & _ & _).
    rewrite Hlen in *. rewrite <- app_assoc.
    repeat split; auto. exists pt, adb, nb, kb, m1. repeat split; auto.
Qed.

Lemma decrypt_inv w m mlen_p c clen ad adlen npub k r w1 :
  chacha20_poly1305_decrypt (Ietf.provider init) m mlen_p c clen ad adlen
    npub k w = Some (r, w1) ->
  ((init (lib w)).1 < 0 /\ r = -1 /\ mem w1 = mem w
   /\ calls w1 = calls w ++ [call_sodium_init])
  \/ (0 <= (init (lib w)).1
      /\ calls w1 = calls w ++ [call_sodium_init; call_ietf_decrypt]
      /\ exists cb adb nb kb mb mlen m1,
          load_bytes (mem w) c clen = Some cb
          /\ load_bytes (mem w) ad adlen = Some adb
          /\ load_bytes (mem w) npub 12 = Some nb
          /\ load_bytes (mem w) k 32 = Some kb
          /\ Ietf.decrypt cb adb nb kb = (r, mb, mlen)
          /\ store_bytes (mem w) m mb = Some m1
          /\ store_u64 m1 mlen_p mlen = Some (mem w1)).
Proof.
  intros H. destruct (Z.lt_ge_cases (init (lib w)).1 0) as [Hi|Hi].
  - left. rewrite decrypt_guard_fail in H by exact Hi.
    inversion H; subst. cbn. auto.
  - right. rewrite decrypt_guard_pass in H by exact Hi.
    apply provider_decrypt_inv in H
      as (cb & adb & nb & kb & mb & mlen & m1 & m2
          & Hc & Had & Hn & Hk & Hd & H1 & H2 & ->).
    cbn [mem lib calls decrypt_fn Ietf.provider] in *.
    rewrite <- app_assoc.
    repeat split; auto. exists cb, adb, nb, kb, mb, mlen, m1.
    repeat split; auto.
Qed.

End LinkedInversion.

Lemma store_bytes_inv m p data m1 :
  store_bytes m p data = Some m1 ->
  data <> [] ->
  exists old,
    bufs m !! p = Some old
    /\ (length data <= length old)%nat
    /\ bufs m1 !! p = Some (data ++ drop (length data) old).
Proof.
  unfold store_bytes. destruct data as [|d data]; [congruence|].
  destruct (bufs m !! p) as [b|]; [|discriminate].
  destruct (Nat.leb_spec (length (d :: data)) (length b)); [|discriminate].
  intros [= <-] _. exists b. repeat split; auto. cbn [bufs].
  apply lookup_insert_eq.
Qed.

(** C3: a call of [chacha20_poly1305_encrypt] on a 32-byte key, a 12-byte
    nonce, associated data and a plaintext of [mlen] bytes that the
    construction accepts, with a library that initialises and a ciphertext
    object of at least [mlen + 16] bytes, returns 0; the length it reports
    is [mlen] plus the value of [chacha20_poly1305_abytes], 16; and the
    ciphertext object then begins with exactly that many written bytes,
    the [mlen] bytes of the encrypted plaintext followed by the 16 bytes of
    the tag, and continues with its old contents. *)
Theorem ciphertext_length_invariant {L : Type} (init : L -> Z * L)
    (w : World L) (c clen_p m : ptr) (mlen : Z) (ad : ptr) (adlen : Z)
    (npub k : ptr) (pt adb nb kb old : bytes) :
  0 <= (init (lib w)).1 ->
  load_bytes (mem w) m mlen = Some pt ->
  load_bytes (mem w) ad adlen = Some adb ->
  load_bytes (mem w) npub 12 = Some nb ->
  load_bytes (mem w) k 32 = Some kb ->
  mlen <= crypto_aead_chacha20poly1305_ietf_MESSAGEBYTES_MAX ->
  bufs (mem w) !! c = Some old ->
  mlen + 16 <= Z.of_nat (length old) ->
  is_Some (cells (mem w) !! clen_p) ->
  exists (w1 : World L) (body tag : bytes) (tagbytes : Z),
    chacha20_poly1305_encrypt (Ietf.provider init) c clen_p m mlen ad adlen
      npub k w = Some (0, w1)
    /\ chacha20_poly1305_abytes w1 = Some (tagbytes, w1)
    /\ tagbytes = 16
    /\ Z.of_nat (length pt) = mlen
    /\ body = Ietf.stream_xor_ic kb nb 1 pt
    /\ tag = Ietf.aead_tag kb nb adb body
    /\ Z.of_nat (length body) = mlen
    /\ Z.of_nat (length tag) = tagbytes
    /\ cells (mem w1) !! clen_p = Some (mlen + tagbytes)
    /\ load_bytes (mem w1) c (mlen + tagbytes) = Some (body ++ tag)
    /\ bufs (mem w1) !! c
       = Some ((body ++ tag) ++ drop (Z.to_nat (mlen + tagbytes)) old).
Proof.
  intros Hi Hm Had Hn Hk Hmax Hold Hroom Hcell.
  pose proof (load_bytes_length _ _ _ _ Hm) as Hlen.
  destruct (encrypt_runs init w c clen_p m mlen ad adlen npub k pt adb nb kb)
    as (w1 & Hrun & _ & Hcl & Hct); auto.
  { unfold capacity. rewrite Hold. exact Hroom. }
  exists w1, (Ietf.stream_xor_ic kb nb 1 pt),
    (Ietf.aead_tag kb nb adb (Ietf.stream_xor_ic kb nb 1 pt)), 16.
  pose proof (seal_length pt adb nb kb) as Hsl.
  split; [exact Hrun|]. split; [reflexivity|]. split; [reflexivity|].
  split; [exact Hlen|]. split; [reflexivity|]. split; [reflexivity|].
  split; [rewrite stream_xor_ic_length; exact Hlen|].
  split; [rewrite aead_tag_length; reflexivity|].
  split; [exact Hcl|]. split; [exact Hct|].
  - apply encrypt_inv in Hrun as [(? & ? & _)|(_ & _ & _ & H)]; [lia|].
    destruct H as (pt' & adb' & nb' & kb' & m1 & Em & Ead & En & Ek
                   & _ & H1 & H2).
    rewrite Hm in Em. rewrite Had in Ead. rewrite Hn in En. rewrite Hk in Ek.
    inversion Em; inversion Ead; inversion En; inversion Ek; subst.
    destruct (store_bytes_inv _ _ _ _ H1) as (old' & Ho & _ & Hnew).
    { intros E. rewrite E in Hsl. simpl in Hsl. lia. }
    rewrite Hold in Ho. inversion Ho; subst old'.
    rewrite (store_u64_bufs _ _ _ _ H2), Hnew. unfold Ietf.seal in *.
    do 3 f_equal. lia.
Qed.

(** C4: a call of [chacha20_poly1305_decrypt] that does not return 0
    returns -1, and the memory it leaves is either the memory it found (the
    library did not initialise) or that memory with zero bytes over the
    message buffer and 0 as the reported length (the ciphertext is shorter
    than a tag, so that no byte is written, or its tag does not verify): in
    no failure does the message buffer receive decrypted data. *)
Theorem decrypt_failure_is_atomic {L : Type} (init : L -> Z * L)
    (w w1 : World L) (m mlen_p c : ptr) (clen : Z) (ad : ptr) (adlen : Z)
    (npub k : ptr) (r : Z) :
  chacha20_poly1305_decrypt (Ietf.provider init) m mlen_p c clen ad adlen
    npub k w = Some (r, w1) ->
  r <> 0 ->
  r = -1
  /\ (((init (lib w)).1 < 0 /\ mem w1 = mem w)
      \/ (0 <= (init (lib w)).1
          /\ exists m1,
              store_bytes (mem w) m (replicate (Z.to_nat (clen - 16)) 0)
              = Some m1
              /\ store_u64 m1 mlen_p 0 = Some (mem w1))).
Proof.
  intros H Hr. apply decrypt_inv in H as [(Hi & -> & Hm & _)|(Hi & _ & H)].
  - split; [reflexivity|]. left. auto.
  - destruct H as (cb & adb & nb & kb & mb & mlen & m1
                   & Hc & _ & _ & _ & Hd & H1 & H2).
    pose proof (load_bytes_length _ _ _ _ Hc) as Hlen.
    destruct (ietf_decrypt_cases cb adb nb kb) as [(E & _)|(E & _)];
      rewrite E in Hd; inversion Hd; subst r mb mlen; [congruence|].
    split; [reflexivity|]. right. split; [exact Hi|]. exists m1.
    replace (Z.to_nat (clen - 16)) with (length cb - 16)%nat by lia. auto.
Qed.

(** C7: two successful calls of [chacha20_poly1305_encrypt] that read the
    same plaintext, associated data, nonce and key, from any two worlds
    and through any pointers, report the same length and leave the same
    bytes in their ciphertext buffers: the result is a function of the four
    inputs alone. *)
Theorem encrypt_is_deterministic {L : Type} (P : Provider L)
    (w w' w1 w1' : World L)
    (c clen_p m : ptr) (mlen : Z) (ad : ptr) (adlen : Z) (npub k : ptr)
    (c' clen_p' m' ad' npub' k' : ptr)
    (pt adb nb kb : bytes) :
  load_bytes (mem w) m mlen = Some pt ->
  load_bytes (mem w) ad adlen = Some adb ->
  load_bytes (mem w) npub 12 = Some nb ->
  load_bytes (mem w) k 32 = Some kb ->
  load_bytes (mem w') m' mlen = Some pt ->
  load_bytes (mem w') ad' adlen = Some adb ->
  load_bytes (mem w') npub' 12 = Some nb ->
  load_bytes (mem w') k' 32 = Some kb ->
  chacha20_poly1305_encrypt P c clen_p m mlen ad adlen npub k w
  = Some (0, w1) ->
  chacha20_poly1305_encrypt P c' clen_p' m' mlen ad' adlen npub' k' w'
  = Some (0, w1') ->
  exists (n : Z) (ct : bytes),
    cells (mem w1) !! clen_p = Some n
    /\ cells (mem w1') !! clen_p' = Some n
    /\ load_bytes (mem w1) c (Z.of_nat (length ct)) = Some ct
    /\ load_bytes (mem w1') c' (Z.of_nat (length ct)) = Some ct
    /\ encrypt_fn P pt adb nb kb = Some (0, ct, n).
Proof.
  intros Hm Had Hn Hk Hm' Had' Hn' Hk' H H'.
  destruct (Z.lt_ge_cases (init_fn P (lib w)).1 0) as [Hi|Hi];
    [rewrite encrypt_guard_fail in H by exact Hi; discriminate|].
  destruct (Z.lt_ge_cases (init_fn P (lib w')).1 0) as [Hi'|Hi'];
    [rewrite encrypt_guard_fail in H' by exact Hi'; discriminate|].
  rewrite encrypt_guard_pass in H, H' by assumption.
  apply provider_encrypt_inv in H
    as (? & ? & ? & ? & cb & clen & m1 & m2
        & E1 & E2 & E3 & E4 & He & H1 & H2 & ->).
  apply provider_encrypt_inv in H'
    as (? & ? & ? & ? & cb' & clen' & m1' & m2'
        & E1' & E2' & E3' & E4' & He' & H1' & H2' & ->).
  cbn [mem lib calls] in *.
  rewrite Hm in E1. rewrite Had in E2. rewrite Hn in E3. rewrite Hk in E4.
  rewrite Hm' in E1'. rewrite Had' in E2'. rewrite Hn' in E3'.
  rewrite Hk' in E4'.
  inversion E1; inversion E2; inversion E3; inversion E4.
  inversion E1'; inversion E2'; inversion E3'; inversion E4'. subst.
  rewrite He in He'. inversion He'; subst cb' clen'.
  exists clen, cb. repeat split.
  - eapply store_u64_cell, H2.
  - eapply store_u64_cell, H2'.
  - rewrite (load_bytes_bufs m1 m2) by (eapply store_u64_bufs, H2).
    eapply store_bytes_load, H1.
  - rewrite (load_bytes_bufs m1' m2') by (eapply store_u64_bufs, H2').
    eapply store_bytes_load, H1'.
  - exact He.
Qed.

(** C9: the status a call of [chacha20_poly1305_encrypt] or
    [chacha20_poly1305_decrypt] returns is 0 or -1 and nothing else: -1
    from the guard when [sodium_init] fails, and otherwise the very value
    the provider's routine returns on the bytes found behind the pointers,
    the routine being called whatever the lengths passed are. *)
Theorem status_is_guard_or_provider {L : Type} (init : L -> Z * L)
    (w : World L)
    (c clen_p m : ptr) (mlen : Z) (ad : ptr) (adlen : Z) (npub k : ptr)
    (m' mlen_p' c' : ptr) (clen' : Z) (ad' : ptr) (adlen' : Z)
    (npub' k' : ptr) :
  (forall r w1,
      chacha20_poly1305_encrypt (Ietf.provider init) c clen_p m mlen ad adlen
        npub k w = Some (r, w1) ->
      (r = 0 \/ r = -1)
      /\ (((init (lib w)).1 < 0 /\ r = -1
           /\ calls w1 = calls w ++ [call_sodium_init])
          \/ (0 <= (init (lib w)).1
              /\ calls w1 = calls w ++ [call_sodium_init; call_ietf_encrypt]
              /\ exists pt adb nb kb cb n,
                  load_bytes (mem w) m mlen = Some pt
                  /\ load_bytes (mem w) ad adlen = Some adb
                  /\ load_bytes (mem w) npub 12 = Some nb
                  /\ load_bytes (mem w) k 32 = Some kb
                  /\ Ietf.encrypt pt adb nb kb = Some (r, cb, n))))
  /\ (forall r w1,
      chacha20_poly1305_decrypt (Ietf.provider init) m' mlen_p' c' clen'
        ad' adlen' npub' k' w = Some (r, w1) ->
      (r = 0 \/ r = -1)
      /\ (((init (lib w)).1 < 0 /\ r = -1
           /\ calls w1 = calls w ++ [call_sodium_init])
          \/ (0 <= (init (lib w)).1
              /\ calls w1 = calls w ++ [call_sodium_init; call_ietf_decrypt]
              /\ exists cb adb nb kb mb n,
                  load_bytes (mem w) c' clen' = Some cb
                  /\ load_bytes (mem w) ad' adlen' = Some adb
                  /\ load_bytes (mem w) npub' 12 = Some nb
                  /\ load_bytes (mem w) k' 32 = Some kb
                  /\ Ietf.decrypt cb adb nb kb = (r, mb, n)))).
Proof.
  split; intros r w1 H.
  - apply encrypt_inv in H
      as [(Hi & -> & _ & Hc)|(Hi & -> & Hc & pt & adb & nb & kb & m1 & H)].
    + split; [right; reflexivity|]. left. auto.
    + split; [left; reflexivity|]. right. repeat split; auto.
      exists pt, adb, nb, kb. do 2 eexists. intuition eauto.
  - apply decrypt_inv in H
      as [(Hi & -> & _ & Hc)
         |(Hi & Hc & cb & adb & nb & kb & mb & n & m1 & H)].
    + split; [right; reflexivity|]. left. auto.
    + split.
      * destruct H as (_ & _ & _ & _ & Hd & _).
        destruct (ietf_decrypt_cases cb adb nb kb) as [(E & _)|(E & _)];
          rewrite E in Hd; inversion Hd; auto.
      * right. repeat split; auto.
        exists cb, adb, nb, kb, mb, n. intuition eauto.
Qed.

(** ** Callers' memories *)

Lemma load_bytes_whole m p b :
  bufs m !! p = Some b -> load_bytes m p (Z.of_nat (length b)) = Some b.
Proof.
  intros Hb. unfold load_bytes. rewrite Hb.
  destruct (Z.eqb_spec (Z.of_nat (length b)) 0) as [E|E].
  - destruct b; [reflexivity|simpl in E; lia].
  - destruct (Z.ltb_spec 0 (Z.of_nat (length b))); [|lia].
    rewrite Z.leb_refl. simpl. rewrite Nat2Z.id, firstn_all. reflexivity.
Qed.

Lemma load_bytes_empty m p : load_bytes m p 0 = Some [].
Proof. reflexivity. Qed.

Section Arena.

Context (out inp ad nonce key : bytes).

Lemma arena_out : bufs (arena out inp ad nonce key) !! p_out = Some out.
Proof. reflexivity. Qed.

Lemma arena_in : bufs (arena out inp ad nonce key) !! p_in = Some inp.
Proof. reflexivity. Qed.

Lemma arena_ad : bufs (arena out inp ad nonce key) !! p_ad = Some ad.
Proof. reflexivity. Qed.

Lemma arena_nonce : bufs (arena out inp ad nonce key) !! p_nonce = Some nonce.
Proof. reflexivity. Qed.

Lemma arena_key : bufs (arena out inp ad nonce key) !! p_key = Some key.
Proof. reflexivity. Qed.

Lemma arena_len : cells (arena out inp ad nonce key) !! p_len = Some 0.
Proof. reflexivity. Qed.

Lemma arena_capacity :
  capacity (arena out inp ad nonce key) p_out = Z.of_nat (length out).
Proof. reflexivity. Qed.

End Arena.

(** ** Counting *)

Lemma all_bytes_spec b : b ∈ all_bytes <-> is_byte b.
Proof. unfold all_bytes, is_byte. rewrite elem_of_seqZ. lia. Qed.

Lemma byte_lists_spec n l : l ∈ byte_lists n <-> length l = n /\ wf_bytes l.
Proof.
  revert l. induction n as [|n IH]; intros l.
  - change (byte_lists 0) with [@nil Z]. rewrite list_elem_of_singleton.
    split.
    + intros ->. split; [reflexivity|constructor].
    + intros [H _]. destruct l; [reflexivity|discriminate].
  - change (byte_lists (S n))
      with (byte_lists n ≫= (fun l => (fun b => b :: l) <$> all_bytes)).
    rewrite list_elem_of_bind. split.
    + intros (t & Hl & Ht). apply list_elem_of_fmap in Hl as (b & -> & Hb).
      apply IH in Ht as [Hlen Hwf]. apply all_bytes_spec in Hb.
      split; [simpl; congruence|constructor; assumption].
    + intros [Hlen Hwf]. destruct l as [|b t]; [discriminate|].
      inversion Hwf; subst. exists t. split.
      * apply list_elem_of_fmap. exists b. split; [reflexivity|].
        apply all_bytes_spec. assumption.
      * apply IH. split; [simpl in Hlen; congruence|assumption].
Qed.

Lemma byte_lists_NoDup n : NoDup (byte_lists n).
Proof.
  induction n as [|n IH].
  - apply NoDup_singleton.
  - change (byte_lists (S n))
      with (byte_lists n ≫= (fun l => (fun b => b :: l) <$> all_bytes)).
    apply NoDup_bind; [| |exact IH].
    + intros l1 l2 y _ _ H1 H2.
      apply list_elem_of_fmap in H1 as (b1 & -> & _).
      apply list_elem_of_fmap in H2 as (b2 & E & _). congruence.
    + intros l _. apply NoDup_fmap_2_strong; [|apply NoDup_seqZ].
      intros b1 b2 _ _ E. congruence.
Qed.

Lemma length_bind_const {A B : Type} (f : A -> list B) (c : nat) (l : list A) :
  (forall x, length (f x) = c) -> length (l ≫= f) = (c * length l)%nat.
Proof.
  intros Hf. induction l as [|x l IH]; [simpl; lia|].
  rewrite bind_cons, length_app, IH, Hf. simpl length. lia.
Qed.

Lemma byte_lists_length_S n :
  length (byte_lists (S n)) = (256 * length (byte_lists n))%nat.
Proof.
  change (byte_lists (S n))
    with (byte_lists n ≫= (fun l => (fun b => b :: l) <$> all_bytes)).
  apply length_bind_const. intros l.
  rewrite length_fmap. unfold all_bytes. rewrite length_seqZ. reflexivity.
Qed.

Lemma byte_lists_nonempty n : (0 < length (byte_lists n))%nat.
Proof.
  induction n as [|n IH]; [simpl; lia|]. rewrite byte_lists_length_S. lia.
Qed.

(** A function on a duplicate-free list is one-to-one on it or takes one
    value at two of its elements. *)
Lemma collision_or_NoDup {A B : Type} `{EqDecision B} (f : A -> B)
    (l : list A) :
  NoDup l ->
  NoDup (f <$> l)
  \/ exists x y, x ∈ l /\ y ∈ l /\ x <> y /\ f x = f y.
Proof.
  induction 1 as [|x l Hx Hnd IH]; [left; constructor|].
  destruct IH as [IH|(a & b & Ha & Hb & Hab & E)].
  - destruct (decide (f x ∈ f <$> l)) as [Hin|Hnin].
    + right. apply list_elem_of_fmap in Hin as (y & E & Hy).
      exists x, y. repeat split; auto.
      * apply list_elem_of_here.
      * apply list_elem_of_further, Hy.
      * intros ->. contradiction.
    + left. rewrite fmap_cons. constructor; assumption.
  - right. exists a, b. repeat split; auto; apply list_elem_of_further; auto.
Qed.

(** There are more buffers of [n + 1] bytes than buffers of [n] bytes: a
    function from a duplicate-free list of as many keys as there are
    buffers of [n + 1] bytes into the buffers of [n] bytes takes one value
    at two keys. *)
Lemma collision_exists n (f : bytes -> bytes) (keys : list bytes) :
  NoDup keys ->
  length keys = length (byte_lists (S n)) ->
  (forall k, k ∈ keys -> f k ∈ byte_lists n) ->
  exists k1 k2, k1 ∈ keys /\ k2 ∈ keys /\ k1 <> k2 /\ f k1 = f k2.
Proof.
  intros Hnd Hlen Hin.
  destruct (collision_or_NoDup f keys Hnd) as [Hinj|H]; [exfalso|exact H].
  assert (Hsub : f <$> keys ⊆+ byte_lists n).
  { apply NoDup_submseteq; [exact Hinj|].
    intros t Ht. apply list_elem_of_fmap in Ht as (k & -> & Hk). auto. }
  apply submseteq_length in Hsub.
  rewrite length_fmap, Hlen, byte_lists_length_S in Hsub.
  pose proof (byte_lists_nonempty n). lia.
Qed.

Lemma padded_NoDup n pad : NoDup (padded n pad).
Proof.
  unfold padded. apply NoDup_fmap_2_strong; [|apply byte_lists_NoDup].
  intros l1 l2 _ _ E. eapply app_inv_tail, E.
Qed.

Lemma padded_length n pad : length (padded n pad) = length (byte_lists n).
Proof. unfold padded. apply length_fmap. Qed.

Lemma padded_spec n pad k :
  k ∈ padded n pad -> length k = (n + pad)%nat /\ wf_bytes k.
Proof.
  unfold padded. intros H. apply list_elem_of_fmap in H as (l & -> & Hl).
  apply byte_lists_spec in Hl as [Hlen Hwf]. split.
  - rewrite length_app, length_replicate. lia.
  - apply Forall_app. split; [assumption|].
    apply Forall_replicate. unfold is_byte. lia.
Qed.

(** ** Tampering *)

Lemma flip_bit_length l i : length (flip_bit l i) = length l.
Proof. apply length_alter. Qed.

Lemma flip_bit_app l1 l2 j :
  flip_bit (l1 ++ l2) (8 * length l1 + j) = l1 ++ flip_bit l2 j.
Proof.
  unfold flip_bit.
  replace (8 * length l1 + j)%nat with (j + length l1 * 8)%nat by lia.
  rewrite Nat.div_add, Nat.Div0.mod_add by lia.
  rewrite (Nat.add_comm (j / 8)). apply alter_app_r.
Qed.

Lemma lxor_pow2_neq b k : 0 <= k -> Z.lxor b (2 ^ k) <> b.
Proof.
  intros Hk E.
  assert (H : Z.lxor b (Z.lxor b (2 ^ k)) = Z.lxor b b)
    by (rewrite E; reflexivity).
  rewrite <- Z.lxor_assoc, Z.lxor_nilpotent, Z.lxor_0_l in H.
  pose proof (Z.pow_pos_nonneg 2 k). lia.
Qed.

(** Flipping a bit that lies inside a buffer changes the buffer. *)
Lemma flip_bit_neq l j : (j < 8 * length l)%nat -> flip_bit l j <> l.
Proof.
  intros Hj E. unfold flip_bit in E.
  assert (Hi : (j / 8 < length l)%nat)
    by (apply Nat.Div0.div_lt_upper_bound; lia).
  destruct (lookup_lt_is_Some_2 l (j / 8)%nat Hi) as [b Hb].
  apply (f_equal (fun t => t !! (j / 8)%nat)) in E. cbv beta in E.
  rewrite list_lookup_alter_eq, Hb in E. simpl in E.
  inversion E as [E']. eapply lxor_pow2_neq; [|exact E']. lia.
Qed.

(** A sealed message with a bit of its tag flipped no longer carries the
    tag of its body. *)
Lemma flipped_tag_mismatch pt adb nb kb i :
  (i < 128)%nat ->
  let cb := flip_bit (Ietf.seal pt adb nb kb) (8 * length pt + i) in
  length cb = (length pt + 16)%nat
  /\ Ietf.aead_tag kb nb adb (take (length cb - 16) cb)
     <> drop (length cb - 16) cb.
Proof.
  intros Hi cb. subst cb. unfold Ietf.seal.
  set (body := Ietf.stream_xor_ic kb nb 1 pt).
  assert (Hb : length body = length pt) by apply stream_xor_ic_length.
  rewrite <- Hb, flip_bit_app.
  rewrite length_app, flip_bit_length, aead_tag_length.
  split; [reflexivity|].
  replace (length body + 16 - 16)%nat with (length body) by lia.
  rewrite take_app_length, drop_app_length.
  intros E. symmetry in E. revert E. apply flip_bit_neq.
  rewrite aead_tag_length. lia.
Qed.

(** What the construction does refuse.  When the trailing 16 bytes of the
    ciphertext handed to [chacha20_poly1305_decrypt] are not the tag
    recomputed from the key, nonce, associated data and ciphertext body
    handed with it, which is so in particular for a sealed ciphertext of
    which one bit of the tag was flipped, the call returns -1, reports
    length 0 and leaves zero bytes in the message buffer.  Whether the
    recomputed tag differs after a change of the body, the associated
    data, the nonce or the key is a property of the tag function that is
    not settled here. *)
Theorem tag_mismatch_is_rejected {L : Type} (init : L -> Z * L)
    (w : World L) (m mlen_p c : ptr) (clen : Z) (ad : ptr) (adlen : Z)
    (npub k : ptr) (cb adb nb kb : bytes) :
  0 <= (init (lib w)).1 ->
  load_bytes (mem w) c clen = Some cb ->
  load_bytes (mem w) ad adlen = Some adb ->
  load_bytes (mem w) npub 12 = Some nb ->
  load_bytes (mem w) k 32 = Some kb ->
  clen - 16 <= capacity (mem w) m ->
  is_Some (cells (mem w) !! mlen_p) ->
  16 <= clen ->
  (Ietf.aead_tag kb nb adb (take (Z.to_nat (clen - 16)) cb)
     <> drop (Z.to_nat (clen - 16)) cb
   \/ exists pt i,
       (i < 128)%nat
       /\ cb = flip_bit (Ietf.seal pt adb nb kb) (8 * length pt + i)) ->
  exists w1,
    chacha20_poly1305_decrypt (Ietf.provider init) m mlen_p c clen ad adlen
      npub k w = Some (-1, w1)
    /\ cells (mem w1) !! mlen_p = Some 0
    /\ load_bytes (mem w1) m (clen - 16)
       = Some (replicate (Z.to_nat (clen - 16)) 0).
Proof.
  intros Hi Hc Had Hn Hk Hcap Hcell Hlen16 Htamper.
  pose proof (load_bytes_length _ _ _ _ Hc) as Hlen.
  assert (Hz : Z.to_nat (clen - 16) = (length cb - 16)%nat) by lia.
  assert (Hmis : Ietf.aead_tag kb nb adb (take (length cb - 16) cb)
                 <> drop (length cb - 16) cb).
  { destruct Htamper as [H|(pt & i & Hlt & ->)].
    - rewrite <- Hz. exact H.
    - apply flipped_tag_mismatch. exact Hlt. }
  destruct (decrypt_runs init w m mlen_p c clen ad adlen npub k cb adb nb kb)
    as (w1 & Hrun & _ & Hcl & Hpt); auto.
  destruct (ietf_decrypt_cases cb adb nb kb) as [(_ & _ & E)|(E & _)];
    [congruence|].
  rewrite E in *. cbn [fst snd] in *. exists w1.
  rewrite length_replicate in Hpt.
  replace (Z.of_nat (length cb - 16)) with (clen - 16) in Hpt by lia.
  rewrite Hz. auto.
Qed.

(** Whatever the provider, as long as it seals the empty message to 16
    bytes that it accepts back, two different valid keys exist of which one
    opens what the other sealed: the tag is shorter than the key. *)
Lemma some_wrong_key_opens {L : Type} (P : Provider L) (nb : bytes) :
  (forall kb,
      length kb = 32%nat -> wf_bytes kb ->
      exists t,
        encrypt_fn P [] [] nb kb = Some (0, t, 16)
        /\ length t = 16%nat /\ wf_bytes t
        /\ (decrypt_fn P t [] nb kb).1.1 = 0) ->
  exists k1 k2 t,
    length k1 = 32%nat /\ wf_bytes k1
    /\ length k2 = 32%nat /\ wf_bytes k2
    /\ k1 <> k2
    /\ encrypt_fn P [] [] nb k1 = Some (0, t, 16)
    /\ (decrypt_fn P t [] nb k2).1.1 = 0.
Proof.
  intros HP.
  set (f := fun kb : bytes =>
              match encrypt_fn P [] [] nb kb with
              | Some (_, t, _) => t
              | None => []
              end).
  destruct (collision_exists 16 f (padded 17 15))
    as (k1 & k2 & H1 & H2 & Hne & Heq).
  { apply padded_NoDup. }
  { apply padded_length. }
  { intros kb Hkb. apply padded_spec in Hkb as [Hl Hw].
    destruct (HP kb Hl Hw) as (t & He & Hlt & Hwt & _).
    apply byte_lists_spec. unfold f. rewrite He. auto. }
  apply padded_spec in H1 as [Hl1 Hw1]. apply padded_spec in H2 as [Hl2 Hw2].
  destruct (HP k1 Hl1 Hw1) as (t1 & He1 & _).
  destruct (HP k2 Hl2 Hw2) as (t2 & He2 & _ & _ & Hd2).
  unfold f in Heq. rewrite He1, He2 in Heq. subst t2.
  exists k1, k2, t1. repeat split; auto.
Qed.

(** Rejection under every other key cannot hold without exception.  The
    ciphertext of the empty message is its 16-byte tag, and there are more
    32-byte keys than 16-byte tags: two different valid keys [k1] and [k2],
    which the counting argument does not exhibit, give the same one, so
    that what [chacha20_poly1305_encrypt] seals under [k1] is accepted,
    with status 0, by [chacha20_poly1305_decrypt] under [k2]. *)
Lemma wrong_key_accepted :
  exists (k1 k2 : bytes) (w1 w3 : World bool),
    length k1 = 32%nat /\ wf_bytes k1
    /\ length k2 = 32%nat /\ wf_bytes k2
    /\ k2 <> k1
    /\ chacha20_poly1305_encrypt (Ietf.provider init_healthy)
         p_out p_len p_in 0 p_ad 0 p_nonce p_key
         (fresh false (replicate 16 0) [] [] zero_nonce k1)
       = Some (0, w1)
    /\ load_bytes (mem w1) p_out 16 = Some (empty_tag k1)
    /\ chacha20_poly1305_decrypt (Ietf.provider init_healthy)
         p_out p_len p_in 16 p_ad 0 p_nonce p_key
         (fresh true [] (empty_tag k1) [] zero_nonce k2)
       = Some (0, w3).
Proof.
  assert (Hseal : forall kb, Ietf.seal [] [] zero_nonce kb = empty_tag kb).
  { intros kb. unfold Ietf.seal, Ietf.stream_xor_ic, empty_tag.
    cbn [Ietf.stream_xor_from app]. reflexivity. }
  assert (Htl : forall kb, length (empty_tag kb) = 16%nat).
  { intros kb. unfold empty_tag. apply aead_tag_length. }
  destruct (collision_exists 16 empty_tag (padded 17 15))
    as (k1 & k2 & H1 & H2 & Hne & Heq).
  { apply padded_NoDup. }
  { apply padded_length. }
  { intros kb _. apply byte_lists_spec. split.
    - apply Htl.
    - unfold empty_tag. apply aead_tag_wf. }
  apply padded_spec in H1 as [Hl1 Hw1]. apply padded_spec in H2 as [Hl2 Hw2].
  set (w := fresh false (replicate 16 0) [] [] zero_nonce k1).
  set (w2 := fresh true [] (empty_tag k1) [] zero_nonce k2).
  assert (Hk1 : load_bytes (mem w) p_key 32 = Some k1).
  { change 32 with (Z.of_nat (17 + 15)). rewrite <- Hl1.
    apply load_bytes_whole, arena_key. }
  assert (Hk2 : load_bytes (mem w2) p_key 32 = Some k2).
  { change 32 with (Z.of_nat (17 + 15)). rewrite <- Hl2.
    apply load_bytes_whole, arena_key. }
  assert (Hc2 : load_bytes (mem w2) p_in 16 = Some (empty_tag k1)).
  { change 16 with (Z.of_nat 16).
    rewrite <- (Htl k1). apply load_bytes_whole, arena_in. }
  assert (Hmax : 0 <= crypto_aead_chacha20poly1305_ietf_MESSAGEBYTES_MAX)
    by (unfold crypto_aead_chacha20poly1305_ietf_MESSAGEBYTES_MAX; lia).
  assert (Hcap : 0 + 16 <= capacity (mem w) p_out).
  { unfold w. cbn [mem fresh]. rewrite arena_capacity, length_replicate. lia. }
  assert (Hcap2 : 16 - 16 <= capacity (mem w2) p_out).
  { unfold w2. cbn [mem fresh]. rewrite arena_capacity. simpl. lia. }
  assert (Hcell : is_Some (cells (mem w) !! p_len)) by (exists 0; reflexivity).
  assert (Hcell2 : is_Some (cells (mem w2) !! p_len))
    by (exists 0; reflexivity).
  destruct (encrypt_runs init_healthy w p_out p_len p_in 0 p_ad 0
              p_nonce p_key [] [] zero_nonce k1
              ltac:(simpl; lia) eq_refl eq_refl eq_refl Hk1 Hmax Hcap Hcell)
    as (w1 & Hrun & _ & _ & Hct).
  destruct (decrypt_runs init_healthy w2 p_out p_len p_in 16 p_ad 0
              p_nonce p_key (empty_tag k1) [] zero_nonce k2
              ltac:(simpl; lia) Hc2 eq_refl eq_refl Hk2 Hcap2 Hcell2)
    as (w3 & Hrun' & _).
  rewrite Hseal in Hct.
  assert (Hr : (Ietf.decrypt (empty_tag k1) [] zero_nonce k2).1.1 = 0).
  { rewrite Heq, <- Hseal, ietf_decrypt_encrypt. reflexivity. }
  rewrite Hr in Hrun'.
  exists k1, k2, w1, w3. repeat split; auto.
Qed.

(** ** The scenario of the spec, and a test vector *)

(** The construction is the one of RFC 8439: its AEAD test vector. *)
Example rfc8439_vector :
  (fun c => (take 16 c, drop 114 c))
    (Ietf.seal rfc_plaintext rfc_ad rfc_nonce rfc_key)
  = (rfc_ciphertext_head, rfc_tag).
Proof. by_eval. Qed.

(** ["hello"] under the zero key and nonce gives 5 + 16 = 21 bytes. *)
Example scenario_encrypt :
  chacha20_poly1305_encrypt (Ietf.provider init_healthy)
    p_out p_len p_in 5 p_ad 0 p_nonce p_key hello_world
  = Some (0, hello_done).
Proof. by_eval. Qed.

(** These 21 bytes decrypt to ["hello"] under the same key and nonce. *)
Example scenario_decrypt :
  chacha20_poly1305_decrypt (Ietf.provider init_healthy)
    p_out p_len p_in 21 p_ad 0 p_nonce p_key
    (reply_world hello_sealed zero_nonce zero_key)
  = Some (0, reply_done).
Proof. by_eval. Qed.

(** Under the nonce of twelve bytes 1 they are refused. *)
Example scenario_wrong_nonce :
  chacha20_poly1305_decrypt (Ietf.provider init_healthy)
    p_out p_len p_in 21 p_ad 0 p_nonce p_key
    (reply_world hello_sealed ones_nonce zero_key)
  = Some (-1, reply_refused).
Proof. by_eval. Qed.

(** A ciphertext shorter than a tag is handed to the provider all the same;
    the -1 is the provider's. *)
Example short_ciphertext_is_delegated :
  exists w1,
    chacha20_poly1305_decrypt (Ietf.provider init_healthy)
      p_out p_len p_in 3 p_ad 0 p_nonce p_key
      (reply_world hello_sealed zero_nonce zero_key)
    = Some (-1, w1)
    /\ calls w1 = [call_sodium_init; call_ietf_decrypt]
    /\ Ietf.decrypt (take 3 hello_sealed) [] zero_nonce zero_key = (-1, [], 0).
Proof. eexists. split; [by_eval|]. split; by_eval. Qed.

(** A key buffer shorter than 32 bytes is not refused either: the provider
    reads past its end, which nothing defines. *)
Example short_key_is_undefined :
  chacha20_poly1305_encrypt (Ietf.provider init_healthy)
    p_out p_len p_in 5 p_ad 0 p_nonce p_key
    (fresh false (replicate 21 0) hello [] zero_nonce (replicate 31 0))
  = None.
Proof. by_eval. Qed.

(** ** Witnesses *)

Lemma encrypt_decrypt_roundtrip_witness :
  exists w1 w3,
    chacha20_poly1305_encrypt (Ietf.provider init_healthy)
      p_out p_len p_in 5 p_ad 0 p_nonce p_key hello_world = Some (0, w1)
    /\ cells (mem w1) !! p_len = Some 21
    /\ load_bytes (mem w1) p_out 21 = Some hello_sealed
    /\ chacha20_poly1305_decrypt (Ietf.provider init_healthy)
         p_out p_len p_in 21 p_ad 0 p_nonce p_key
         (reply_world hello_sealed zero_nonce zero_key) = Some (0, w3)
    /\ cells (mem w3) !! p_len = Some 5
    /\ load_bytes (mem w3) p_out 5 = Some hello.
Proof.
  destruct (encrypt_decrypt_roundtrip init_healthy hello_world
              p_out p_len p_in 5 p_ad 0 p_nonce p_key
              hello [] zero_nonce zero_key
              ltac:(by_eval) ltac:(by_eval) ltac:(by_eval) ltac:(by_eval)
              ltac:(by_eval) ltac:(by_eval) ltac:(by_eval) ltac:(by_eval))
    as (w1 & ct & He & Hl & Hc & Hd).
  assert (E : w1 = hello_done).
  { assert (H : Some (0, w1) = Some (0, hello_done))
      by (rewrite <- He; by_eval).
    congruence. }
  subst w1.
  assert (E : ct = hello_sealed).
  { assert (H : Some ct = Some hello_sealed) by (rewrite <- Hc; by_eval).
    congruence. }
  subst ct.
  destruct (Hd (reply_world hello_sealed zero_nonce zero_key)
              p_out p_len p_in p_ad p_nonce p_key
              ltac:(by_eval) ltac:(by_eval) ltac:(by_eval) ltac:(by_eval)
              ltac:(by_eval) ltac:(by_eval) ltac:(by_eval))
    as (w3 & Hr & Hl3 & Hp).
  exists hello_done, w3.
  exact (conj He (conj Hl (conj Hc (conj Hr (conj Hl3 Hp))))).
Defined.

Lemma tag_mismatch_is_rejected_witness :
  exists w1,
    chacha20_poly1305_decrypt (Ietf.provider init_healthy)
      p_out p_len p_in 21 p_ad 0 p_nonce p_key
      (reply_world (flip_bit hello_sealed 43) zero_nonce zero_key)
    = Some (-1, w1)
    /\ cells (mem w1) !! p_len = Some 0
    /\ load_bytes (mem w1) p_out (21 - 16)
       = Some (replicate (Z.to_nat (21 - 16)) 0).
Proof.
  apply (tag_mismatch_is_rejected init_healthy
           (reply_world (flip_bit hello_sealed 43) zero_nonce zero_key)
           p_out p_len p_in 21 p_ad 0 p_nonce p_key
           (flip_bit hello_sealed 43) [] zero_nonce zero_key
           ltac:(by_eval) ltac:(by_eval) ltac:(by_eval) ltac:(by_eval)
           ltac:(by_eval) ltac:(by_eval) ltac:(by_eval) ltac:(by_eval)).
  right. exists hello, 3%nat. split; [lia|by_eval].
Defined.

Lemma ciphertext_length_invariant_witness :
  exists (w1 : World bool) (body tag : bytes) (tagbytes : Z),
    chacha20_poly1305_encrypt (Ietf.provider init_healthy)
      p_out p_len p_in 5 p_ad 0 p_nonce p_key hello_world = Some (0, w1)
    /\ chacha20_poly1305_abytes w1 = Some (tagbytes, w1)
    /\ tagbytes = 16
    /\ Z.of_nat (length hello) = 5
    /\ body = Ietf.stream_xor_ic zero_key zero_nonce 1 hello
    /\ tag = Ietf.aead_tag zero_key zero_nonce [] body
    /\ Z.of_nat (length body) = 5
    /\ Z.of_nat (length tag) = tagbytes
    /\ cells (mem w1) !! p_len = Some (5 + tagbytes)
    /\ load_bytes (mem w1) p_out (5 + tagbytes) = Some (body ++ tag)
    /\ bufs (mem w1) !! p_out
       = Some ((body ++ tag)
                 ++ drop (Z.to_nat (5 + tagbytes)) (replicate 21 0)).
Proof.
  apply (ciphertext_length_invariant init_healthy hello_world
           p_out p_len p_in 5 p_ad 0 p_nonce p_key
           hello [] zero_nonce zero_key (replicate 21 0));
    by_eval.
Defined.

Lemma decrypt_failure_is_atomic_witness :
  -1 = -1
  /\ (((init_healthy (lib (reply_world hello_sealed ones_nonce zero_key))).1 < 0
       /\ mem reply_refused
          = mem (reply_world hello_sealed ones_nonce zero_key))
      \/ (0 <= (init_healthy
                  (lib (reply_world hello_sealed ones_nonce zero_key))).1
          /\ exists m1,
              store_bytes (mem (reply_world hello_sealed ones_nonce zero_key))
                p_out (replicate (Z.to_nat (21 - 16)) 0) = Some m1
              /\ store_u64 m1 p_len 0 = Some (mem reply_refused))).
Proof.
  apply (decrypt_failure_is_atomic init_healthy
           (reply_world hello_sealed ones_nonce zero_key) reply_refused
           p_out p_len p_in 21 p_ad 0 p_nonce p_key (-1)).
  - by_eval.
  - lia.
Defined.

Lemma init_failure_aborts_before_output_witness :
  (exists w1,
      chacha20_poly1305_encrypt (Ietf.provider init_broken)
        p_out p_len p_in 5 p_ad 0 p_nonce p_key broken_world = Some (-1, w1)
      /\ mem w1 = mem broken_world
      /\ calls w1 = calls broken_world ++ [call_sodium_init])
  /\ (exists w1,
      chacha20_poly1305_decrypt (Ietf.provider init_broken)
        p_out p_len p_in 21 p_ad 0 p_nonce p_key broken_world = Some (-1, w1)
      /\ mem w1 = mem broken_world
      /\ calls w1 = calls broken_world ++ [call_sodium_init]).
Proof.
  apply (init_failure_aborts_before_output (Ietf.provider init_broken)
           broken_world).
  simpl. lia.
Defined.

Lemma encrypt_is_deterministic_witness :
  exists (n : Z) (ct : bytes),
    cells (mem hello_done) !! p_len = Some n
    /\ cells (mem hello_again_done) !! p_len = Some n
    /\ load_bytes (mem hello_done) p_out (Z.of_nat (length ct)) = Some ct
    /\ load_bytes (mem hello_again_done) p_out (Z.of_nat (length ct))
       = Some ct
    /\ encrypt_fn (Ietf.provider init_healthy) hello [] zero_nonce zero_key
       = Some (0, ct, n).
Proof.
  apply (encrypt_is_deterministic (Ietf.provider init_healthy)
           hello_world hello_again hello_done hello_again_done
           p_out p_len p_in 5 p_ad 0 p_nonce p_key
           p_out p_len p_in p_ad p_nonce p_key
           hello [] zero_nonce zero_key);
    by_eval.
Defined.


(** * Further properties of the code *)

(** ** 32-bit addition *)

(** X1: on 32-bit unsigned integers [my_add] is commutative and associative,
    0 is neutral, and adding the two's complement of [b] undoes adding
    [b]. *)
Theorem my_add_group (a b c : Z) :
  0 <= a < 2 ^ 32 -> 0 <= b < 2 ^ 32 -> 0 <= c < 2 ^ 32 ->
  my_add a b = my_add b a
  /\ my_add (my_add a b) c = my_add a (my_add b c)
  /\ my_add a 0 = a
  /\ my_add (my_add a b) ((2 ^ 32 - b) mod 2 ^ 32) = a.
Proof.
  intros Ha Hb Hc. unfold my_add, UINT32_MOD. repeat split.
  - rewrite Z.add_comm. reflexivity.
  - rewrite Zplus_mod_idemp_l, Zplus_mod_idemp_r, Z.add_assoc. reflexivity.
  - rewrite Z.add_0_r. apply Z.mod_small. lia.
  - rewrite Zplus_mod_idemp_l, Zplus_mod_idemp_r.
    replace (a + b + (2 ^ 32 - b)) with (a + 1 * 2 ^ 32) by ring.
    rewrite Z_mod_plus_full. apply Z.mod_small. lia.
Qed.

Lemma my_add_group_witness :
  my_add 4294967295 7 = my_add 7 4294967295
  /\ my_add (my_add 4294967295 7) 9 = my_add 4294967295 (my_add 7 9)
  /\ my_add 4294967295 0 = 4294967295
  /\ my_add (my_add 4294967295 7) ((2 ^ 32 - 7) mod 2 ^ 32) = 4294967295.
Proof.
  apply (my_add_group 4294967295 7 9); lia.
Defined.

(** The two cases of a 32-bit addition. *)
Lemma my_add_cases (a b : Z) :
  0 <= a < 2 ^ 32 -> 0 <= b < 2 ^ 32 ->
  (a + b < 2 ^ 32 /\ my_add a b = a + b)
  \/ (2 ^ 32 <= a + b /\ my_add a b = a + b - 2 ^ 32).
Proof.
  intros Ha Hb. unfold my_add, UINT32_MOD.
  destruct (Z.lt_ge_cases (a + b) (2 ^ 32)) as [Hs|Hs]; [left|right];
    (split; [exact Hs|]).
  - apply Z.mod_small. lia.
  - replace (a + b) with ((a + b - 2 ^ 32) + 1 * 2 ^ 32) at 1 by ring.
    rewrite Z_mod_plus_full. apply Z.mod_small. lia.
Qed.

(** X2: the sum of two 32-bit unsigned integers wrapped exactly when
    [my_add] returns less than its first argument, and exactly when it
    returns less than its second. *)
Theorem my_add_overflow_test (a b : Z) :
  0 <= a < 2 ^ 32 -> 0 <= b < 2 ^ 32 ->
  (my_add a b < a <-> 2 ^ 32 <= a + b)
  /\ (my_add a b < b <-> 2 ^ 32 <= a + b).
Proof.
  intros Ha Hb. destruct (my_add_cases a b Ha Hb) as [[Hs E]|[Hs E]];
    rewrite E; lia.
Qed.

Lemma my_add_overflow_test_witness :
  (my_add 4294967295 2 < 4294967295 <-> 2 ^ 32 <= 4294967295 + 2)
  /\ (my_add 4294967295 2 < 2 <-> 2 ^ 32 <= 4294967295 + 2).
Proof.
  apply (my_add_overflow_test 4294967295 2); lia.
Defined.

(** X3: [my_add a] is one-to-one on 32-bit unsigned integers: equal results
    come from equal second arguments. *)
Theorem my_add_cancel (a b c : Z) :
  0 <= a < 2 ^ 32 -> 0 <= b < 2 ^ 32 -> 0 <= c < 2 ^ 32 ->
  my_add a b = my_add a c -> b = c.
Proof.
  intros Ha Hb Hc E.
  destruct (my_add_cases a b Ha Hb) as [[Hs Eb]|[Hs Eb]];
    destruct (my_add_cases a c Ha Hc) as [[Ht Ec]|[Ht Ec]];
    rewrite Eb, Ec in E; lia.
Qed.

Lemma my_add_cancel_witness : my_add 4294967295 2 = 1 /\ 2 = 2.
Proof.
  split; [reflexivity|].
  apply (my_add_cancel 4294967295 2 2); [lia | lia | lia | reflexivity].
Defined.

(** ** What a call touches *)

Lemma store_bytes_frame m p data m1 q :
  store_bytes m p data = Some m1 -> q <> p -> bufs m1 !! q = bufs m !! q.
Proof.
  unfold store_bytes. destruct data as [|d data]; [intros [= <-]; reflexivity|].
  destruct (bufs m !! p) as [b|]; [|discriminate].
  destruct (_ <=? _)%nat; [|discriminate].
  intros [= <-] Hq. cbn [bufs]. apply lookup_insert_ne. congruence.
Qed.

Lemma store_bytes_capacity m p data m1 q :
  store_bytes m p data = Some m1 -> capacity m1 q = capacity m q.
Proof.
  intros H. destruct data as [|d data]; [inversion H; reflexivity|].
  destruct (store_bytes_inv _ _ _ _ H) as (old & Ho & Hle & Hn);
    [discriminate|].
  unfold capacity. destruct (decide (q = p)) as [->|Hne].
  - rewrite Hn, Ho, length_app, length_drop. lia.
  - rewrite (store_bytes_frame _ _ _ _ _ H Hne). reflexivity.
Qed.

Lemma store_u64_frame m p v m1 q :
  store_u64 m p v = Some m1 -> q <> p -> cells m1 !! q = cells m !! q.
Proof.
  unfold store_u64. destruct (cells m !! p); [|discriminate].
  intros [= <-] Hq. cbn [cells]. apply lookup_insert_ne. congruence.
Qed.

Lemma store_u64_keeps_cells m p v m1 q :
  store_u64 m p v = Some m1 -> is_Some (cells m !! q) ->
  is_Some (cells m1 !! q).
Proof.
  intros H Hq. destruct (decide (q = p)) as [->|Hne].
  - rewrite (store_u64_cell _ _ _ _ H). eauto.
  - rewrite (store_u64_frame _ _ _ _ _ H Hne). exact Hq.
Qed.

Lemma load_bytes_frame m m1 p n :
  bufs m1 !! p = bufs m !! p -> load_bytes m1 p n = load_bytes m p n.
Proof. unfold load_bytes. intros ->. reflexivity. Qed.

Section AnyProvider.

Context {L : Type} (P : Provider L).

(** Every returning call of [chacha20_poly1305_encrypt], whatever the
    provider is: where it stopped and what it did on the way. *)
Lemma encrypt_any_inv w c clen_p m mlen ad adlen npub k r w1 :
  chacha20_poly1305_encrypt P c clen_p m mlen ad adlen npub k w
  = Some (r, w1) ->
  ((init_fn P (lib w)).1 < 0 /\ r = -1
   /\ w1 = mkWorld (init_fn P (lib w)).2 (mem w)
             (calls w ++ [call_sodium_init]))
  \/ (0 <= (init_fn P (lib w)).1
      /\ exists pt adb nb kb cb n m1 m2,
          load_bytes (mem w) m mlen = Some pt
          /\ load_bytes (mem w) ad adlen = Some adb
          /\ load_bytes (mem w) npub 12 = Some nb
          /\ load_bytes (mem w) k 32 = Some kb
          /\ encrypt_fn P pt adb nb kb = Some (r, cb, n)
          /\ store_bytes (mem w) c cb = Some m1
          /\ store_u64 m1 clen_p n = Some m2
          /\ w1 = mkWorld (init_fn P (lib w)).2 m2
                    (calls w ++ [call_sodium_init; call_ietf_encrypt])).
Proof.
  intros H. destruct (Z.lt_ge_cases (init_fn P (lib w)).1 0) as [Hi|Hi].
  - left. rewrite encrypt_guard_fail in H by exact Hi.
    inversion H; subst. auto.
  - right. rewrite encrypt_guard_pass in H by exact Hi.
    apply provider_encrypt_inv in H
      as (pt & adb & nb & kb & cb & n & m1 & m2
          & Hm & Had & Hn & Hk & He & H1 & H2 & ->).
    cbn [mem lib calls] in *. rewrite <- app_assoc.
    split; [exact Hi|]. exists pt, adb, nb, kb, cb, n, m1, m2.
    repeat split; auto.
Qed.

Lemma decrypt_any_inv w m mlen_p c clen ad adlen npub k r w1 :
  chacha20_poly1305_decrypt P m mlen_p c clen ad adlen npub k w
  = Some (r, w1) ->
  ((init_fn P (lib w)).1 < 0 /\ r = -1
   /\ w1 = mkWorld (init_fn P (lib w)).2 (mem w)
             (calls w ++ [call_sodium_init]))
  \/ (0 <= (init_fn P (lib w)).1
      /\ exists cb adb nb kb mb n m1 m2,
          load_bytes (mem w) c clen = Some cb
          /\ load_bytes (mem w) ad adlen = Some adb
          /\ load_bytes (mem w) npub 12 = Some nb
          /\ load_bytes (mem w) k 32 = Some kb
          /\ decrypt_fn P cb adb nb kb = (r, mb, n)
          /\ store_bytes (mem w) m mb = Some m1
          /\ store_u64 m1 mlen_p n = Some m2
          /\ w1 = mkWorld (init_fn P (lib w)).2 m2
                    (calls w ++ [call_sodium_init; call_ietf_decrypt])).
Proof.
  intros H. destruct (Z.lt_ge_cases (init_fn P (lib w)).1 0) as [Hi|Hi].
  - left. rewrite decrypt_guard_fail in H by exact Hi.
    inversion H; subst. auto.
  - right. rewrite decrypt_guard_pass in H by exact Hi.
    apply provider_decrypt_inv in H
      as (cb & adb & nb & kb & mb & n & m1 & m2
          & Hc & Had & Hn & Hk & Hd & H1 & H2 & ->).
    cbn [mem lib calls] in *. rewrite <- app_assoc.
    split; [exact Hi|]. exists cb, adb, nb, kb, mb, n, m1, m2.
    repeat split; auto.
Qed.

(** A call on readable inputs whose provider output fits runs to the end. *)
Lemma encrypt_any_runs w c clen_p m mlen ad adlen npub k pt adb nb kb r cb n :
  0 <= (init_fn P (lib w)).1 ->
  load_bytes (mem w) m mlen = Some pt ->
  load_bytes (mem w) ad adlen = Some adb ->
  load_bytes (mem w) npub 12 = Some nb ->
  load_bytes (mem w) k 32 = Some kb ->
  encrypt_fn P pt adb nb kb = Some (r, cb, n) ->
  Z.of_nat (length cb) <= capacity (mem w) c ->
  is_Some (cells (mem w) !! clen_p) ->
  exists m1 m2,
    store_bytes (mem w) c cb = Some m1
    /\ store_u64 m1 clen_p n = Some m2
    /\ chacha20_poly1305_encrypt P c clen_p m mlen ad adlen npub k w
       = Some (r, mkWorld (init_fn P (lib w)).2 m2
                    (calls w ++ [call_sodium_init; call_ietf_encrypt])).
Proof.
  intros Hi Hm Had Hn Hk He Hcap Hcell.
  destruct (store_bytes_total (mem w) c cb Hcap) as [m1 H1].
  destruct (store_u64_total m1 clen_p n) as [m2 H2].
  { rewrite (store_bytes_cells _ _ _ _ H1). exact Hcell. }
  exists m1, m2. repeat split; auto.
  rewrite encrypt_guard_pass by exact Hi.
  unfold crypto_aead_chacha20poly1305_ietf_encrypt,
    crypto_aead_chacha20poly1305_ietf_NPUBBYTES,
    crypto_aead_chacha20poly1305_ietf_KEYBYTES.
  cbn [mem lib calls]. rewrite Hm, Had, Hn, Hk, He, H1, H2, <- app_assoc.
  reflexivity.
Qed.

Lemma decrypt_any_runs w m mlen_p c clen ad adlen npub k cb adb nb kb r mb n :
  0 <= (init_fn P (lib w)).1 ->
  load_bytes (mem w) c clen = Some cb ->
  load_bytes (mem w) ad adlen = Some adb ->
  load_bytes (mem w) npub 12 = Some nb ->
  load_bytes (mem w) k 32 = Some kb ->
  decrypt_fn P cb adb nb kb = (r, mb, n) ->
  Z.of_nat (length mb) <= capacity (mem w) m ->
  is_Some (cells (mem w) !! mlen_p) ->
  exists m1 m2,
    store_bytes (mem w) m mb = Some m1
    /\ store_u64 m1 mlen_p n = Some m2
    /\ chacha20_poly1305_decrypt P m mlen_p c clen ad adlen npub k w
       = Some (r, mkWorld (init_fn P (lib w)).2 m2
                    (calls w ++ [call_sodium_init; call_ietf_decrypt])).
Proof.
  intros Hi Hc Had Hn Hk Hd Hcap Hcell.
  destruct (store_bytes_total (mem w) m mb Hcap) as [m1 H1].
  destruct (store_u64_total m1 mlen_p n) as [m2 H2].
  { rewrite (store_bytes_cells _ _ _ _ H1). exact Hcell. }
  exists m1, m2. repeat split; auto.
  rewrite decrypt_guard_pass by exact Hi.
  unfold crypto_aead_chacha20poly1305_ietf_decrypt,
    crypto_aead_chacha20poly1305_ietf_NPUBBYTES,
    crypto_aead_chacha20poly1305_ietf_KEYBYTES.
  cbn [mem lib calls]. rewrite Hc, Had, Hn, Hk, Hd, H1, H2, <- app_assoc.
  reflexivity.
Qed.

(** X4: whatever the provider is, a returning call of
    [chacha20_poly1305_encrypt] has called [sodium_init] exactly once and
    first, also when the library was initialised before, and after it
    nothing (status -1 from the guard) or the provider's encryption routine
    once, never its decryption routine; the library state it leaves is the
    one [sodium_init] produced. *)
Theorem encrypt_call_discipline
    (w w1 : World L) (c clen_p m : ptr) (mlen : Z) (ad : ptr) (adlen : Z)
    (npub k : ptr) (r : Z) :
  chacha20_poly1305_encrypt P c clen_p m mlen ad adlen npub k w
  = Some (r, w1) ->
  lib w1 = (init_fn P (lib w)).2
  /\ ~ In call_ietf_decrypt (drop (length (calls w)) (calls w1))
  /\ (((init_fn P (lib w)).1 < 0 /\ r = -1
       /\ calls w1 = calls w ++ [call_sodium_init])
      \/ (0 <= (init_fn P (lib w)).1
          /\ calls w1 = calls w ++ [call_sodium_init; call_ietf_encrypt])).
Proof.
  intros H. apply encrypt_any_inv in H as [(Hi & -> & ->)|(Hi & H)].
  - cbn [lib calls]. rewrite drop_app_length. repeat split; auto.
    simpl. intros [E|[]]. discriminate E.
  - destruct H
      as (? & ? & ? & ? & ? & ? & ? & ? & _ & _ & _ & _ & _ & _ & _ & ->).
    cbn [lib calls]. rewrite drop_app_length. repeat split; auto.
    simpl. intros [E|[E|[]]]; discriminate E.
Qed.

(** X5: the same for [chacha20_poly1305_decrypt], with the provider's
    decryption routine and never its encryption routine. *)
Theorem decrypt_call_discipline
    (w w1 : World L) (m mlen_p c : ptr) (clen : Z) (ad : ptr) (adlen : Z)
    (npub k : ptr) (r : Z) :
  chacha20_poly1305_decrypt P m mlen_p c clen ad adlen npub k w
  = Some (r, w1) ->
  lib w1 = (init_fn P (lib w)).2
  /\ ~ In call_ietf_encrypt (drop (length (calls w)) (calls w1))
  /\ (((init_fn P (lib w)).1 < 0 /\ r = -1
       /\ calls w1 = calls w ++ [call_sodium_init])
      \/ (0 <= (init_fn P (lib w)).1
          /\ calls w1 = calls w ++ [call_sodium_init; call_ietf_decrypt])).
Proof.
  intros H. apply decrypt_any_inv in H as [(Hi & -> & ->)|(Hi & H)].
  - cbn [lib calls]. rewrite drop_app_length. repeat split; auto.
    simpl. intros [E|[]]. discriminate E.
  - destruct H
      as (? & ? & ? & ? & ? & ? & ? & ? & _ & _ & _ & _ & _ & _ & _ & ->).
    cbn [lib calls]. rewrite drop_app_length. repeat split; auto.
    simpl. intros [E|[E|[]]]; discriminate E.
Qed.

(** X6: whatever the provider is, a returning call of
    [chacha20_poly1305_encrypt] leaves every byte buffer other than the one
    behind [ciphertext] and every length cell other than the one behind
    [ciphertext_len] as it found them, and no buffer changes its size: the
    message, the associated data, the nonce and the key are never written
    unless the caller passed one of them as [ciphertext]. *)
Theorem encrypt_frame
    (w w1 : World L) (c clen_p m : ptr) (mlen : Z) (ad : ptr) (adlen : Z)
    (npub k : ptr) (r : Z) :
  chacha20_poly1305_encrypt P c clen_p m mlen ad adlen npub k w
  = Some (r, w1) ->
  (forall q, q <> c -> bufs (mem w1) !! q = bufs (mem w) !! q)
  /\ (forall q, q <> clen_p -> cells (mem w1) !! q = cells (mem w) !! q)
  /\ (forall q, capacity (mem w1) q = capacity (mem w) q).
Proof.
  intros H. apply encrypt_any_inv in H as [(_ & _ & ->)|(_ & H)].
  - cbn [mem]. auto.
  - destruct H as (? & ? & ? & ? & cb & n & m1 & m2
                   & _ & _ & _ & _ & _ & H1 & H2 & ->).
    cbn [mem]. repeat split; intros q.
    + intros Hq. rewrite (store_u64_bufs _ _ _ _ H2).
      eapply store_bytes_frame; eauto.
    + intros Hq. rewrite (store_u64_frame _ _ _ _ _ H2 Hq).
      rewrite (store_bytes_cells _ _ _ _ H1). reflexivity.
    + unfold capacity at 1. rewrite (store_u64_bufs _ _ _ _ H2).
      apply (store_bytes_capacity _ _ _ _ q H1).
Qed.

(** X7: the same for [chacha20_poly1305_decrypt]: only the buffer behind
    [message] and the cell behind [message_len] can change. *)
Theorem decrypt_frame
    (w w1 : World L) (m mlen_p c : ptr) (clen : Z) (ad : ptr) (adlen : Z)
    (npub k : ptr) (r : Z) :
  chacha20_poly1305_decrypt P m mlen_p c clen ad adlen npub k w
  = Some (r, w1) ->
  (forall q, q <> m -> bufs (mem w1) !! q = bufs (mem w) !! q)
  /\ (forall q, q <> mlen_p -> cells (mem w1) !! q = cells (mem w) !! q)
  /\ (forall q, capacity (mem w1) q = capacity (mem w) q).
Proof.
  intros H. apply decrypt_any_inv in H as [(_ & _ & ->)|(_ & H)].
  - cbn [mem]. auto.
  - destruct H as (? & ? & ? & ? & mb & n & m1 & m2
                   & _ & _ & _ & _ & _ & H1 & H2 & ->).
    cbn [mem]. repeat split; intros q.
    + intros Hq. rewrite (store_u64_bufs _ _ _ _ H2).
      eapply store_bytes_frame; eauto.
    + intros Hq. rewrite (store_u64_frame _ _ _ _ _ H2 Hq).
      rewrite (store_bytes_cells _ _ _ _ H1). reflexivity.
    + unfold capacity at 1. rewrite (store_u64_bufs _ _ _ _ H2).
      apply (store_bytes_capacity _ _ _ _ q H1).
Qed.

End AnyProvider.

(** ** Unchecked lengths *)

Lemma capacity_nonneg m p : 0 <= capacity m p.
Proof. unfold capacity. destruct (bufs m !! p); lia. Qed.

Lemma load_bytes_short m p n :
  capacity m p < n -> load_bytes m p n = None.
Proof.
  intros H. pose proof (capacity_nonneg m p) as H0.
  unfold load_bytes, capacity in *.
  destruct (Z.eqb_spec n 0) as [E|_]; [lia|].
  destruct (bufs m !! p) as [b|]; [|reflexivity].
  destruct (Z.leb_spec n (Z.of_nat (length b))) as [Hle|_]; [lia|].
  rewrite andb_false_r. reflexivity.
Qed.

Lemma store_bytes_short m p data :
  capacity m p < Z.of_nat (length data) -> store_bytes m p data = None.
Proof.
  intros H. pose proof (capacity_nonneg m p) as H0.
  unfold store_bytes, capacity in *.
  destruct data as [|d data]; [simpl in H; lia|].
  destruct (bufs m !! p) as [b|]; [|reflexivity].
  destruct (Nat.leb_spec (length (d :: data)) (length b)) as [Hle|_];
    [lia|reflexivity].
Qed.

Section Unchecked.

Context {L : Type} (P : Provider L).

(** X8: the guard tests [sodium_init() < 0] and nothing else: in two worlds
    with the same memory whose libraries both initialise, whatever
    non-negative values [sodium_init] returns there (0 from a first
    initialisation, 1 from a library already initialised) and whatever the
    library states and call logs are, a call returns the same status and
    leaves the same memory, or is undefined in both. *)
Theorem guard_accepts_any_nonnegative_init
    (w w' : World L)
    (c clen_p m : ptr) (mlen : Z) (ad : ptr) (adlen : Z) (npub k : ptr)
    (m' mlen_p' c' : ptr) (clen' : Z) (ad' : ptr) (adlen' : Z)
    (npub' k' : ptr) :
  mem w = mem w' ->
  0 <= (init_fn P (lib w)).1 ->
  0 <= (init_fn P (lib w')).1 ->
  seen (chacha20_poly1305_encrypt P c clen_p m mlen ad adlen npub k w)
  = seen (chacha20_poly1305_encrypt P c clen_p m mlen ad adlen npub k w')
  /\ seen (chacha20_poly1305_decrypt P m' mlen_p' c' clen' ad' adlen'
             npub' k' w)
     = seen (chacha20_poly1305_decrypt P m' mlen_p' c' clen' ad' adlen'
               npub' k' w').
Proof.
  intros Hm Hi Hi'.
  rewrite !encrypt_guard_pass, !decrypt_guard_pass by assumption.
  unfold crypto_aead_chacha20poly1305_ietf_encrypt,
    crypto_aead_chacha20poly1305_ietf_decrypt.
  cbn [mem lib calls]. rewrite <- Hm. split.
  - destruct (load_bytes (mem w) m mlen); [|reflexivity].
    destruct (load_bytes (mem w) ad adlen); [|reflexivity].
    destruct (load_bytes (mem w) npub _); [|reflexivity].
    destruct (load_bytes (mem w) k _); [|reflexivity].
    destruct (encrypt_fn P _ _ _ _) as [[[r cb] n]|]; [|reflexivity].
    destruct (store_bytes (mem w) c cb) as [m1|]; [|reflexivity].
    destruct (store_u64 m1 clen_p n); reflexivity.
  - destruct (load_bytes (mem w) c' clen'); [|reflexivity].
    destruct (load_bytes (mem w) ad' adlen'); [|reflexivity].
    destruct (load_bytes (mem w) npub' _); [|reflexivity].
    destruct (load_bytes (mem w) k' _); [|reflexivity].
    destruct (decrypt_fn P _ _ _ _) as [[r mb] n].
    destruct (store_bytes (mem w) m' mb) as [m1|]; [|reflexivity].
    destruct (store_u64 m1 mlen_p' n); reflexivity.
Qed.

(** X9: the entry points check no length.  With a library that initialises,
    a nonce object of fewer than 12 bytes or a key object of fewer than 32
    bytes is read past its end by the provider, and the call is undefined
    instead of returning a status: in every call of
    [chacha20_poly1305_encrypt], and in every call of
    [chacha20_poly1305_decrypt] that passes at least the 16 bytes of a tag
    as ciphertext length (below that the provider refuses the ciphertext
    before it looks at the nonce or the key). *)
Theorem short_nonce_or_key_is_read_out_of_bounds
    (w : World L)
    (c clen_p m : ptr) (mlen : Z) (ad : ptr) (adlen : Z)
    (m' mlen_p' c' : ptr) (clen' : Z) (ad' : ptr) (adlen' : Z)
    (npub k : ptr) :
  0 <= (init_fn P (lib w)).1 ->
  capacity (mem w) npub < 12 \/ capacity (mem w) k < 32 ->
  chacha20_poly1305_encrypt P c clen_p m mlen ad adlen npub k w = None
  /\ (16 <= clen' ->
      chacha20_poly1305_decrypt P m' mlen_p' c' clen' ad' adlen' npub k w
      = None).
Proof.
  intros Hi Hshort.
  rewrite encrypt_guard_pass, decrypt_guard_pass by assumption.
  unfold crypto_aead_chacha20poly1305_ietf_encrypt,
    crypto_aead_chacha20poly1305_ietf_decrypt,
    crypto_aead_chacha20poly1305_ietf_NPUBBYTES,
    crypto_aead_chacha20poly1305_ietf_KEYBYTES.
  cbn [mem lib calls].
  destruct Hshort as [H|H]; rewrite (load_bytes_short _ _ _ H); split.
  - destruct (load_bytes (mem w) m mlen); [|reflexivity].
    destruct (load_bytes (mem w) ad adlen); reflexivity.
  - intros _. destruct (load_bytes (mem w) c' clen'); [|reflexivity].
    destruct (load_bytes (mem w) ad' adlen'); reflexivity.
  - destruct (load_bytes (mem w) m mlen); [|reflexivity].
    destruct (load_bytes (mem w) ad adlen); [|reflexivity].
    destruct (load_bytes (mem w) npub 12); reflexivity.
  - intros _. destruct (load_bytes (mem w) c' clen'); [|reflexivity].
    destruct (load_bytes (mem w) ad' adlen'); [|reflexivity].
    destruct (load_bytes (mem w) npub 12); reflexivity.
Qed.

(** X10: nor is the capacity of the output checked.  When the library
    initialises, the inputs are readable and the provider produces more
    ciphertext bytes than the object behind [ciphertext] holds, the call
    writes past the end of that object: it is undefined. *)
Theorem small_ciphertext_buffer_overflows
    (w : World L) (c clen_p m : ptr) (mlen : Z) (ad : ptr) (adlen : Z)
    (npub k : ptr) (pt adb nb kb cb : bytes) (r n : Z) :
  0 <= (init_fn P (lib w)).1 ->
  load_bytes (mem w) m mlen = Some pt ->
  load_bytes (mem w) ad adlen = Some adb ->
  load_bytes (mem w) npub 12 = Some nb ->
  load_bytes (mem w) k 32 = Some kb ->
  encrypt_fn P pt adb nb kb = Some (r, cb, n) ->
  capacity (mem w) c < Z.of_nat (length cb) ->
  chacha20_poly1305_encrypt P c clen_p m mlen ad adlen npub k w = None.
Proof.
  intros Hi Hm Had Hn Hk He Hcap.
  rewrite encrypt_guard_pass by assumption.
  unfold crypto_aead_chacha20poly1305_ietf_encrypt,
    crypto_aead_chacha20poly1305_ietf_NPUBBYTES,
    crypto_aead_chacha20poly1305_ietf_KEYBYTES.
  cbn [mem lib calls].
  rewrite Hm, Had, Hn, Hk, He, (store_bytes_short _ _ _ Hcap). reflexivity.
Qed.

(** X11: likewise for decryption and the object behind [message]. *)
Theorem small_message_buffer_overflows
    (w : World L) (m mlen_p c : ptr) (clen : Z) (ad : ptr) (adlen : Z)
    (npub k : ptr) (cb adb nb kb mb : bytes) (r n : Z) :
  0 <= (init_fn P (lib w)).1 ->
  load_bytes (mem w) c clen = Some cb ->
  load_bytes (mem w) ad adlen = Some adb ->
  load_bytes (mem w) npub 12 = Some nb ->
  load_bytes (mem w) k 32 = Some kb ->
  decrypt_fn P cb adb nb kb = (r, mb, n) ->
  capacity (mem w) m < Z.of_nat (length mb) ->
  chacha20_poly1305_decrypt P m mlen_p c clen ad adlen npub k w = None.
Proof.
  intros Hi Hc Had Hn Hk Hd Hcap.
  rewrite decrypt_guard_pass by assumption.
  unfold crypto_aead_chacha20poly1305_ietf_decrypt,
    crypto_aead_chacha20poly1305_ietf_NPUBBYTES,
    crypto_aead_chacha20poly1305_ietf_KEYBYTES.
  cbn [mem lib calls].
  rewrite Hc, Had, Hn, Hk, Hd, (store_bytes_short _ _ _ Hcap). reflexivity.
Qed.

(** X12: encryption and decryption compose in one world, also in place.
    Let the provider seal [pt] to [cb] and open [cb] to [pt] under the
    bytes of the associated data, nonce and key, and let [ciphertext] be
    none of these three objects.  Then [chacha20_poly1305_encrypt] followed,
    in the world it leaves, by [chacha20_poly1305_decrypt] on the same
    ciphertext, associated data, nonce and key pointers and on the length
    the first call reported succeeds twice and leaves [pt] behind the
    [message] pointer of the second call, which may be the ciphertext
    buffer itself. *)
Theorem encrypt_then_decrypt_in_one_world
    (w : World L) (c clen_p m : ptr) (mlen : Z) (ad : ptr) (adlen : Z)
    (npub k : ptr) (m' mlen_p' : ptr) (pt adb nb kb cb : bytes) :
  0 <= (init_fn P (lib w)).1 ->
  0 <= (init_fn P (init_fn P (lib w)).2).1 ->
  load_bytes (mem w) m mlen = Some pt ->
  load_bytes (mem w) ad adlen = Some adb ->
  load_bytes (mem w) npub 12 = Some nb ->
  load_bytes (mem w) k 32 = Some kb ->
  encrypt_fn P pt adb nb kb = Some (0, cb, Z.of_nat (length cb)) ->
  decrypt_fn P cb adb nb kb = (0, pt, mlen) ->
  Z.of_nat (length cb) <= capacity (mem w) c ->
  mlen <= capacity (mem w) m' ->
  is_Some (cells (mem w) !! clen_p) ->
  is_Some (cells (mem w) !! mlen_p') ->
  c <> ad -> c <> npub -> c <> k ->
  exists w1 w2,
    chacha20_poly1305_encrypt P c clen_p m mlen ad adlen npub k w
    = Some (0, w1)
    /\ cells (mem w1) !! clen_p = Some (Z.of_nat (length cb))
    /\ chacha20_poly1305_decrypt P m' mlen_p' c (Z.of_nat (length cb))
         ad adlen npub k w1 = Some (0, w2)
    /\ cells (mem w2) !! mlen_p' = Some mlen
    /\ load_bytes (mem w2) m' mlen = Some pt.
Proof.
  intros Hi Hi' Hm Had Hn Hk He Hd Hcap Hcap' Hcell Hcell' Hcad Hcn Hck.
  pose proof (load_bytes_length _ _ _ _ Hm) as Hlen.
  destruct (encrypt_any_runs P w c clen_p m mlen ad adlen npub k
              pt adb nb kb 0 cb _ Hi Hm Had Hn Hk He Hcap Hcell)
    as (m1 & m2 & H1 & H2 & Hrun).
  set (w1 := mkWorld (init_fn P (lib w)).2 m2
               (calls w ++ [call_sodium_init; call_ietf_encrypt])) in *.
  assert (Hb : bufs m2 = bufs m1) by (eapply store_u64_bufs, H2).
  assert (Hfr : forall q, q <> c -> bufs m2 !! q = bufs (mem w) !! q).
  { intros q Hq. rewrite Hb. eapply store_bytes_frame; eauto. }
  destruct (decrypt_any_runs P w1 m' mlen_p' c (Z.of_nat (length cb))
              ad adlen npub k cb adb nb kb 0 pt mlen)
    as (n1 & n2 & G1 & G2 & Hrun'); cbn [w1 mem lib].
  - exact Hi'.
  - rewrite (load_bytes_bufs m1 m2 _ _ Hb). eapply store_bytes_load, H1.
  - rewrite (load_bytes_frame (mem w) m2) by (apply Hfr; congruence).
    exact Had.
  - rewrite (load_bytes_frame (mem w) m2) by (apply Hfr; congruence).
    exact Hn.
  - rewrite (load_bytes_frame (mem w) m2) by (apply Hfr; congruence).
    exact Hk.
  - exact Hd.
  - unfold capacity at 1. rewrite Hb.
    change (Z.of_nat (length pt) <= capacity m1 m').
    rewrite (store_bytes_capacity _ _ _ _ m' H1). lia.
  - eapply store_u64_keeps_cells; [exact H2|].
    rewrite (store_bytes_cells _ _ _ _ H1). exact Hcell'.
  - exists w1. eexists. split; [exact Hrun|]. cbn [w1 mem].
    split; [eapply store_u64_cell, H2|]. split; [exact Hrun'|].
    cbn [mem]. split; [eapply store_u64_cell, G2|].
    rewrite (load_bytes_bufs n1 n2) by (eapply store_u64_bufs, G2).
    rewrite <- Hlen. eapply store_bytes_load, G1.
Qed.

End Unchecked.

(** ** Witnesses of the further properties *)

Lemma encrypt_call_discipline_witness :
  lib hello_done = (init_fn (Ietf.provider init_healthy) (lib hello_world)).2
  /\ ~ In call_ietf_decrypt
         (drop (length (calls hello_world)) (calls hello_done))
  /\ (((init_fn (Ietf.provider init_healthy) (lib hello_world)).1 < 0
       /\ 0 = -1
       /\ calls hello_done = calls hello_world ++ [call_sodium_init])
      \/ (0 <= (init_fn (Ietf.provider init_healthy) (lib hello_world)).1
          /\ calls hello_done
             = calls hello_world ++ [call_sodium_init; call_ietf_encrypt])).
Proof.
  apply (encrypt_call_discipline (Ietf.provider init_healthy)
           hello_world hello_done p_out p_len p_in 5 p_ad 0 p_nonce p_key 0).
  by_eval.
Defined.

Lemma decrypt_call_discipline_witness :
  lib reply_done
  = (init_fn (Ietf.provider init_healthy)
       (lib (reply_world hello_sealed zero_nonce zero_key))).2
  /\ ~ In call_ietf_encrypt
         (drop (length (calls (reply_world hello_sealed zero_nonce zero_key)))
            (calls reply_done))
  /\ (((init_fn (Ietf.provider init_healthy)
          (lib (reply_world hello_sealed zero_nonce zero_key))).1 < 0
       /\ 0 = -1
       /\ calls reply_done
          = calls (reply_world hello_sealed zero_nonce zero_key)
              ++ [call_sodium_init])
      \/ (0 <= (init_fn (Ietf.provider init_healthy)
                  (lib (reply_world hello_sealed zero_nonce zero_key))).1
          /\ calls reply_done
             = calls (reply_world hello_sealed zero_nonce zero_key)
                 ++ [call_sodium_init; call_ietf_decrypt])).
Proof.
  apply (decrypt_call_discipline (Ietf.provider init_healthy)
           (reply_world hello_sealed zero_nonce zero_key) reply_done
           p_out p_len p_in 21 p_ad 0 p_nonce p_key 0).
  by_eval.
Defined.

Lemma encrypt_frame_witness :
  bufs (mem hello_done) !! p_key = bufs (mem hello_world) !! p_key
  /\ bufs (mem hello_done) !! p_in = bufs (mem hello_world) !! p_in
  /\ capacity (mem hello_done) p_out = capacity (mem hello_world) p_out.
Proof.
  destruct (encrypt_frame (Ietf.provider init_healthy)
              hello_world hello_done p_out p_len p_in 5 p_ad 0 p_nonce p_key 0
              ltac:(by_eval))
    as (Hb & _ & Hc).
  split; [apply Hb; discriminate|]. split; [apply Hb; discriminate|].
  apply Hc.
Defined.

Lemma decrypt_frame_witness :
  bufs (mem reply_done) !! p_key
  = bufs (mem (reply_world hello_sealed zero_nonce zero_key)) !! p_key
  /\ bufs (mem reply_done) !! p_in
     = bufs (mem (reply_world hello_sealed zero_nonce zero_key)) !! p_in
  /\ capacity (mem reply_done) p_out
     = capacity (mem (reply_world hello_sealed zero_nonce zero_key)) p_out.
Proof.
  destruct (decrypt_frame (Ietf.provider init_healthy)
              (reply_world hello_sealed zero_nonce zero_key) reply_done
              p_out p_len p_in 21 p_ad 0 p_nonce p_key 0 ltac:(by_eval))
    as (Hb & _ & Hc).
  split; [apply Hb; discriminate|]. split; [apply Hb; discriminate|].
  apply Hc.
Defined.

Lemma guard_accepts_any_nonnegative_init_witness :
  (init_healthy (lib hello_world)).1 = 0
  /\ (init_healthy (lib hello_world_warm)).1 = 1
  /\ seen (chacha20_poly1305_encrypt (Ietf.provider init_healthy)
             p_out p_len p_in 5 p_ad 0 p_nonce p_key hello_world)
     = seen (chacha20_poly1305_encrypt (Ietf.provider init_healthy)
               p_out p_len p_in 5 p_ad 0 p_nonce p_key hello_world_warm)
  /\ seen (chacha20_poly1305_decrypt (Ietf.provider init_healthy)
             p_out p_len p_in 5 p_ad 0 p_nonce p_key hello_world)
     = seen (chacha20_poly1305_decrypt (Ietf.provider init_healthy)
               p_out p_len p_in 5 p_ad 0 p_nonce p_key hello_world_warm).
Proof.
  split; [reflexivity|]. split; [reflexivity|].
  apply (guard_accepts_any_nonnegative_init (Ietf.provider init_healthy)
           hello_world hello_world_warm).
  - reflexivity.
  - by_eval.
  - by_eval.
Defined.

Lemma short_nonce_or_key_is_read_out_of_bounds_witness :
  load_bytes (mem short_key_reply_world) p_in 21 = Some hello_sealed
  /\ capacity (mem short_key_reply_world) p_key = 31
  /\ chacha20_poly1305_encrypt (Ietf.provider init_healthy)
       p_out p_len p_in 5 p_ad 0 p_nonce p_key short_key_reply_world = None
  /\ chacha20_poly1305_decrypt (Ietf.provider init_healthy)
       p_out p_len p_in 21 p_ad 0 p_nonce p_key short_key_reply_world = None.
Proof.
  split; [by_eval|]. split; [reflexivity|].
  destruct (short_nonce_or_key_is_read_out_of_bounds
              (Ietf.provider init_healthy) short_key_reply_world
              p_out p_len p_in 5 p_ad 0 p_out p_len p_in 21 p_ad 0
              p_nonce p_key ltac:(by_eval) ltac:(right; by_eval))
    as [He Hd].
  split; [exact He|]. apply Hd. lia.
Defined.

Lemma small_ciphertext_buffer_overflows_witness :
  capacity (mem small_output_world) p_out = 20
  /\ chacha20_poly1305_encrypt (Ietf.provider init_healthy)
       p_out p_len p_in 5 p_ad 0 p_nonce p_key small_output_world = None.
Proof.
  split; [reflexivity|].
  apply (small_ciphertext_buffer_overflows (Ietf.provider init_healthy)
           small_output_world p_out p_len p_in 5 p_ad 0 p_nonce p_key
           hello [] zero_nonce zero_key hello_sealed 0 21);
    by_eval.
Defined.

Lemma small_message_buffer_overflows_witness :
  capacity (mem small_message_world) p_out = 4
  /\ chacha20_poly1305_decrypt (Ietf.provider init_healthy)
       p_out p_len p_in 21 p_ad 0 p_nonce p_key small_message_world = None.
Proof.
  split; [reflexivity|].
  apply (small_message_buffer_overflows (Ietf.provider init_healthy)
           small_message_world p_out p_len p_in 21 p_ad 0 p_nonce p_key
           hello_sealed [] zero_nonce zero_key hello 0 5);
    by_eval.
Defined.

Lemma encrypt_then_decrypt_in_one_world_witness :
  exists w1 w2,
    chacha20_poly1305_encrypt (Ietf.provider init_healthy)
      p_out p_len p_out 5 p_ad 0 p_nonce p_key inplace_world = Some (0, w1)
    /\ cells (mem w1) !! p_len = Some (Z.of_nat (length hello_sealed))
    /\ chacha20_poly1305_decrypt (Ietf.provider init_healthy)
         p_out p_len p_out (Z.of_nat (length hello_sealed))
         p_ad 0 p_nonce p_key w1 = Some (0, w2)
    /\ cells (mem w2) !! p_len = Some 5
    /\ load_bytes (mem w2) p_out 5 = Some hello.
Proof.
  apply (encrypt_then_decrypt_in_one_world (Ietf.provider init_healthy)
           inplace_world p_out p_len p_out 5 p_ad 0 p_nonce p_key
           p_out p_len hello [] zero_nonce zero_key hello_sealed);
    try by_eval; discriminate.
Defined.
